(** * IKNP oblivious-transfer extension: [mpc/ot/iknp_ote.hpp]

    A shallow embedding of the namespace [IKNPOTE] and of the collaborators
    it calls, followed by the properties of the two-party protocol.

    Conventions of the embedding.
    - [size_t] quantities and loop counters are natural numbers.
    - [uint8_t] is [byte]; a [block] ([__m128i]) is a number whose bit [p]
      is bit [p] of the 128-bit value; [std::vector<T>] is [list T].
    - A pointer [v.data() + off] read by a callee is [skipn off v]; a
      callee writing through such a pointer is [store v off bytes].
    - Console logging ([std::cout], timers, [PrintSplitLine]) carries no
      data of the protocol and is left out; the message a failing check
      writes to [std::cerr] is kept in [Exit]. *)

From Stdlib Require Import String List NArith ZArith Lia Zify ZifyNat Bool Arith Sorted.
From Stdlib.Strings Require Import Byte.
Import ListNotations.

Set Implicit Arguments.

Ltac Zify.zify_post_hook ::= Z.div_mod_to_equations.

(** ** Bytes, blocks and bits *)

Definition uint8_t := byte.
Definition block := N.

Definition byte_bits (b : uint8_t) : list bool :=
  let '(b0, (b1, (b2, (b3, (b4, (b5, (b6, b7))))))) := to_bits b in
  [b0; b1; b2; b3; b4; b5; b6; b7].

(** Bit [k] of a byte, bit 0 being the least significant one. *)
Definition byte_bit (b : uint8_t) (k : nat) : bool := nth k (byte_bits b) false.

Definition byte_of_bits (f : nat -> bool) : uint8_t :=
  of_bits (f 0, (f 1, (f 2, (f 3, (f 4, (f 5, (f 6, f 7))))))).

Definition block_bit (B : block) (p : nat) : bool := N.testbit B (N.of_nat p).

Definition set_bits (f : nat -> bool) (positions : list nat) : N :=
  fold_right (fun p acc => if f p then N.setbit acc (N.of_nat p) else acc)
             0%N positions.

Definition block_of_bits (f : nat -> bool) : block := set_bits f (seq 0 128).

(** [v.data() + off] as the target of a write of [bytes]. *)
Definition store (A : Type) (v : list A) (off : nat) (bytes : list A) : list A :=
  firstn off v ++ bytes ++ skipn (off + length bytes) v.

(** [v[i] = x] on a vector (nothing is written out of range here; the
    source has undefined behaviour there). *)
Fixpoint assign (A : Type) (v : list A) (i : nat) (x : A) : list A :=
  match v, i with
  | [], _ => []
  | _ :: t, 0 => x :: t
  | h :: t, S i' => h :: assign t i' x
  end.

(** A sparse bit is one byte per bit, value 0 or 1. *)
Definition is_sparse_bit (b : uint8_t) : Prop := b = x00 \/ b = x01.

Definition sparse_bit (b : uint8_t) : bool := negb (Byte.eqb b x00).

(** Element [(r, c)] of a packed column-major bit matrix with [rows] rows:
    bit [r mod 8] of byte [c * rows/8 + r/8]. *)
Definition matrix_bit (M : list uint8_t) (rows r c : nat) : bool :=
  byte_bit (nth (c * (rows / 8) + r / 8) M x00) (r mod 8).

Module Block.

(** Modelled from the spec: [block ^ block] of [crypto/block.hpp], which
    is not part of the sources at hand; a Block is "XOR-able". *)
Definition xor (a b : block) : block := N.lxor a b.

(** Modelled from the spec: [Block::XOR] on block vectors
    ([crypto/block.hpp] is missing); element-wise over the common
    length. *)
Fixpoint XOR (vec_a vec_b : list block) : list block :=
  match vec_a, vec_b with
  | a :: ta, b :: tb => xor a b :: XOR ta tb
  | _, _ => []
  end.

(** Modelled from the spec: [Block::ToDenseBits] ([crypto/block.hpp] is
    missing): "expand rows/128 Blocks into rows/8 bytes"; bit [p] of
    block [k] is bit [128 k + p] of the packed array. *)
Definition ToDenseBits (block_data : list block) (BLOCK_LEN BIT_LEN : nat)
  : list uint8_t :=
  map (fun q => byte_of_bits (fun t =>
         block_bit (nth (q / 16) block_data 0%N) (8 * (q mod 16) + t)))
      (seq 0 (BIT_LEN / 8)).

(** Modelled from the spec: [Block::FromDenseBits] ([crypto/block.hpp] is
    missing): "reinterpret a packed bit array (one bit per bit, 8 bits
    per byte) as bits/128 Blocks". *)
Definition FromDenseBits (dense : list uint8_t) (BIT_LEN BLOCK_LEN : nat)
  : list block :=
  map (fun k => block_of_bits (fun p =>
         byte_bit (nth ((128 * k + p) / 8) dense x00) ((128 * k + p) mod 8)))
      (seq 0 BLOCK_LEN).

(** Modelled from the spec: [Block::FromSparseBits] ([crypto/block.hpp]
    is missing): "pack a sparse-bit byte array into bits/128 Blocks", in
    the bit order of the dense conversions. *)
Definition FromSparseBits (bool_data : list uint8_t) (BIT_LEN BLOCK_LEN : nat)
  : list block :=
  map (fun k => block_of_bits (fun p =>
         sparse_bit (nth (128 * k + p) bool_data x00)))
      (seq 0 BLOCK_LEN).

End Block.

(** Modelled from the spec: [empBitMatrixTranspose] (its header is missing):
    "given a column-major packed bit matrix of size rows x cols, produce a
    column-major packed bit matrix of size cols x rows (the transpose)";
    "any bit-exact transpose is acceptable".  Byte [q] of the result holds
    the elements [(8 (q mod (cols/8)) + t, q / (cols/8))] of the transpose,
    which are the elements [(q / (cols/8), 8 (q mod (cols/8)) + t)] of
    [src]. *)
Definition empBitMatrixTranspose (src : list uint8_t) (rows cols : nat)
  : list uint8_t :=
  map (fun q => byte_of_bits (fun t =>
         matrix_bit src rows (q / (cols / 8)) (8 * (q mod (cols / 8)) + t)))
      (seq 0 (rows / 8 * cols)).

(** ** External collaborators as oracles *)

Module PRG.

(** Modelled from the spec: the pseudo-random generator of
    [crypto/prg.hpp] (missing), as a deterministic oracle.  The laws are
    the spec's contract: outputs have the requested size, random bits
    are sparse bits, and reseeding starts a fresh stream that depends on
    the key only. *)
Class Oracle : Type := {
  Seed : Type;
  SetSeed : option block -> nat -> Seed;
  ReSeed : Seed -> block -> nat -> Seed;
  GenRandomBlocks : Seed -> nat -> list block * Seed;
  GenRandomBits : Seed -> nat -> list uint8_t * Seed;
  GenRandomBitMatrix : Seed -> nat -> nat -> list uint8_t * Seed;
  GenRandomBlocks_length :
    forall s n, length (fst (GenRandomBlocks s n)) = n;
  GenRandomBits_length :
    forall s n, length (fst (GenRandomBits s n)) = n;
  GenRandomBits_sparse :
    forall s n, Forall is_sparse_bit (fst (GenRandomBits s n));
  GenRandomBitMatrix_length :
    forall s rows cols,
      length (fst (GenRandomBitMatrix s rows cols)) = rows / 8 * cols;
  ReSeed_fresh :
    forall s s' key id, ReSeed s key id = ReSeed s' key id
}.

End PRG.

Module Hash.

(** Modelled from the spec: [Hash::BlocksToBlock] ([crypto/hash.hpp] is
    missing), "compress a variable-length block vector to a single
    128-bit digest"; an arbitrary function shared by both parties. *)
Class Oracle : Type := { BlocksToBlock : list block -> block }.

End Hash.

Module NPOT.

(** Modelled from the spec: the ideal functionality of the base OT
    ([naor_pinkas_ot.hpp] is missing): the party calling [NPOT::Receive]
    with selection bits obtains, for every index, the first key of the
    pair offered by [NPOT::Send] when its bit is 0 and the second one
    otherwise. *)
Definition ideal (vec_K0 vec_K1 : list block) (vec_selection_bit : list uint8_t)
           (LEN : nat) : list block :=
  map (fun j => if Byte.eqb (nth j vec_selection_bit x00) x00
                then nth j vec_K0 0%N else nth j vec_K1 0%N)
      (seq 0 LEN).

(** Modelled from the spec: the stream operators of [NPOT::PP]
    ([naor_pinkas_ot.hpp] is missing): what [fout << pp.baseOT] appends
    and what [fin >> pp.baseOT] consumes ([None]: the stream fails).
    The laws state that the two are inverses on a stream prefix. *)
Class Serializer (PP : Type) : Type := {
  write : PP -> list uint8_t;
  read : list uint8_t -> option (PP * list uint8_t);
  read_write : forall pp rest, read (write pp ++ rest) = Some (pp, rest);
  write_read : forall bytes pp rest,
      read bytes = Some (pp, rest) -> bytes = write pp ++ rest
}.

End NPOT.

(** ** Processes and their lock-step execution *)

Section Processes.

Variable basePP : Type.

(** One party's code as a tree of its blocking operations ([NetIO] and
    the base OT); everything else is computed between them. [Exit] is
    [std::cerr << msg; exit(code)]. *)
Inductive proc (R : Type) : Type :=
| Ret (r : R)
| Exit (code : nat) (msg : string)
| SendBlocks (data : list block) (k : proc R)
| ReceiveBlocks (LEN : nat) (k : list block -> proc R)
| SendBlock (a : block) (k : proc R)
| ReceiveBlock (k : block -> proc R)
| NPOT_Send (pp : basePP) (vec_m0 vec_m1 : list block) (LEN : nat) (k : proc R)
| NPOT_Receive (pp : basePP) (vec_selection_bit : list uint8_t) (LEN : nat)
               (k : list block -> proc R).

Inductive party : Type := Sender | Receiver.

(** What is seen on the wire, one entry per call. *)
Inductive event : Type :=
| BaseOT (LEN : nat)
| Blocks (from : party) (data : list block)
| OneBlock (from : party) (a : block).

Inductive outcome (A B : Type) : Type :=
| Finished (a : A) (b : B) (wire : list event)
| Aborted (who : party) (code : nat) (msg : string) (wire : list event)
| OutOfStep (wire : list event).

(** The two parties are "strictly synchronous on the wire": every send of
    one party meets the matching receive of the other, and the two roles
    of the base OT meet each other. *)
Fixpoint run (A B : Type) (s : proc A) : proc B -> list event -> outcome A B :=
  fun r wire =>
    match s with
    | Exit _ code msg => Aborted A B Sender code msg wire
    | Ret a =>
        match r with
        | Ret b => Finished a b wire
        | Exit _ code msg => Aborted A B Receiver code msg wire
        | _ => OutOfStep A B wire
        end
    | SendBlocks data ks =>
        match r with
        | ReceiveBlocks LEN kr =>
            if length data =? LEN
            then run ks (kr data) (wire ++ [Blocks Sender data])
            else OutOfStep A B wire
        | Exit _ code msg => Aborted A B Receiver code msg wire
        | _ => OutOfStep A B wire
        end
    | ReceiveBlocks LEN ks =>
        match r with
        | SendBlocks data kr =>
            if length data =? LEN
            then run (ks data) kr (wire ++ [Blocks Receiver data])
            else OutOfStep A B wire
        | Exit _ code msg => Aborted A B Receiver code msg wire
        | _ => OutOfStep A B wire
        end
    | SendBlock a ks =>
        match r with
        | ReceiveBlock kr => run ks (kr a) (wire ++ [OneBlock Sender a])
        | Exit _ code msg => Aborted A B Receiver code msg wire
        | _ => OutOfStep A B wire
        end
    | ReceiveBlock ks =>
        match r with
        | SendBlock a kr => run (ks a) kr (wire ++ [OneBlock Receiver a])
        | Exit _ code msg => Aborted A B Receiver code msg wire
        | _ => OutOfStep A B wire
        end
    | NPOT_Send _ vec_m0 vec_m1 _ ks =>
        match r with
        | NPOT_Receive _ bits LEN kr =>
            run ks (kr (NPOT.ideal vec_m0 vec_m1 bits LEN)) (wire ++ [BaseOT LEN])
        | Exit _ code msg => Aborted A B Receiver code msg wire
        | _ => OutOfStep A B wire
        end
    | NPOT_Receive _ bits LEN ks =>
        match r with
        | NPOT_Send _ vec_m0 vec_m1 _ kr =>
            run (ks (NPOT.ideal vec_m0 vec_m1 bits LEN)) kr (wire ++ [BaseOT LEN])
        | Exit _ code msg => Aborted A B Receiver code msg wire
        | _ => OutOfStep A B wire
        end
    end.

(** [for (auto j = start; j < start + count; j++) body], the body
    handing the loop-carried variables to its continuation. *)
Fixpoint for_ (S R : Type) (start count : nat)
         (body : nat -> S -> (S -> proc R) -> proc R)
         (st : S) (k : S -> proc R) : proc R :=
  match count with
  | 0 => k st
  | Datatypes.S c =>
      body start st (fun st' => for_ (Datatypes.S start) c body st' k)
  end.

(** The same loop around code that does not block. *)
Fixpoint loop (S : Type) (start count : nat) (body : nat -> S -> S) (st : S) : S :=
  match count with
  | 0 => st
  | Datatypes.S c => loop (Datatypes.S start) c body (body start st)
  end.

End Processes.

Arguments Ret {basePP R} r.
Arguments Exit {basePP R} code msg.
Arguments SendBlocks {basePP R} data k.
Arguments ReceiveBlocks {basePP R} LEN k.
Arguments SendBlock {basePP R} a k.
Arguments ReceiveBlock {basePP R} k.
Arguments NPOT_Send {basePP R} pp vec_m0 vec_m1 LEN k.
Arguments NPOT_Receive {basePP R} pp vec_selection_bit LEN k.
Arguments Finished {A B} a b wire.
Arguments Aborted {A B} who code msg wire.
Arguments OutOfStep {A B} wire.

Declare Scope proc_scope.
Delimit Scope proc_scope with proc.
Notation "x <- e ;; k" := (e (fun x => k))
  (at level 61, e at next level, right associativity, only parsing) : proc_scope.
Notation "e ;;; k" := (e k)
  (at level 61, right associativity, only parsing) : proc_scope.

(** ** The namespace [IKNPOTE] *)

(** [const static size_t BASE_LEN = 128]: the default length of base OT. *)
Definition BASE_LEN : nat := 128.

(** The files of the host, as far as [SavePP] and [FetchPP] see them:
    the content of each existing file, and whether a file of that name can
    be opened for writing. *)
Record filesystem : Type := {
  content : string -> option (list uint8_t);
  can_write : string -> bool
}.

Definition write_file (fs : filesystem) (name : string) (bytes : list uint8_t)
  : filesystem :=
  {| content := fun n => if String.eqb n name then Some bytes else content fs n;
     can_write := can_write fs |}.

(** A call that either returns or ends the program with [exit(code)] after
    writing [msg] to [std::cerr]. *)
Inductive result (A : Type) : Type :=
| Returns (a : A)
| Exits (code : nat) (msg : string).

Arguments Returns {A} a.
Arguments Exits {A} code msg.

(** [std::ofstream]: the bytes written so far.  [std::ifstream]: the bytes
    still to be read, or [None] once a read has failed (every later read
    then leaves its target untouched). *)
Definition ofstream := list uint8_t.
Definition ifstream := option (list uint8_t).

Module Serialization.

(** Modelled from the spec: [Serialization::operator<<] on a [uint8_t]
    (the header is missing): the stream holds "a single byte malicious". *)
Definition write_uint8 (fout : ofstream) (b : uint8_t) : ofstream := fout ++ [b].

(** Modelled from the spec: [Serialization::operator>>] on a [uint8_t]
    (the header is missing), the inverse of the above; at the end of the
    stream the read fails and the target keeps its value. *)
Definition read_uint8 (fin : ifstream) (target : uint8_t) : ifstream * uint8_t :=
  match fin with
  | Some (b :: rest) => (Some rest, b)
  | _ => (None, target)
  end.

End Serialization.

Section IKNPOTE.

Context {basePP : Type}.
Context {prg : PRG.Oracle} {hash : Hash.Oracle}.
Context {npot_io : NPOT.Serializer basePP}.

Local Open Scope proc_scope.

(** check if the parameters are legal *)
Definition CheckParameters (R : Type) (ROW_NUM COLUMN_NUM : nat)
           (k : proc basePP R) : proc basePP R :=
  if negb (ROW_NUM mod 128 =? 0) || negb (COLUMN_NUM mod 128 =? 0)
  then Exit 1 "row or colulumn parameters is wrong"%string
  else k.

Record PP : Type := {
  malicious : uint8_t;
  baseOT : basePP
}.

(** serialize pp to stream: [operator<<] *)
Definition operator_lshift (fout : ofstream) (pp : PP) : ofstream :=
  let fout := fout ++ NPOT.write (baseOT pp) in
  let fout := Serialization.write_uint8 fout (malicious pp) in
  fout.

(** deserialize pp from stream: [operator>>] *)
Definition operator_rshift (fin : ifstream) (pp : PP) : ifstream * PP :=
  let '(fin, base) :=
    match fin with
    | Some bytes =>
        match NPOT.read bytes with
        | Some (base, rest) => (Some rest, base)
        | None => (None, baseOT pp)
        end
    | None => (None, baseOT pp)
    end in
  let '(fin, m) := Serialization.read_uint8 fin (malicious pp) in
  (fin, {| malicious := m; baseOT := base |}).

(** [Setup], given what [NPOT::Setup()] returns. *)
Definition Setup (NPOT_Setup : basePP) : PP :=
  {| malicious := x00; baseOT := NPOT_Setup |}.

(** save pp to file *)
Definition SavePP (pp : PP) (pp_filename : string) (fs : filesystem)
  : result filesystem :=
  if negb (can_write fs pp_filename)
  then Exits 1 (pp_filename ++ " open error")%string
  else
    let fout : ofstream := [] in
    let fout := operator_lshift fout pp in
    Returns (write_file fs pp_filename fout).

(** fetch pp from file *)
Definition FetchPP (pp : PP) (pp_filename : string) (fs : filesystem)
  : result PP :=
  match content fs pp_filename with
  | None => Exits 1 (pp_filename ++ " open error")%string
  | Some bytes =>
      let fin : ifstream := Some bytes in
      let '(fin, pp) := operator_rshift fin pp in
      Returns pp
  end.

(** Phase 1 of the sender, lines 111-157 of [Send] and, verbatim, lines
    330-375 of [OnesidedSend]: the sender obtains the matrix [Q]. The
    continuation receives [vec_selection_bit] and [Q]. *)
Definition Send_Phase1 (R : Type) (pp : PP) (EXTEND_LEN : nat)
           (k : list uint8_t -> list uint8_t -> proc basePP R) : proc basePP R :=
  let ROW_NUM := EXTEND_LEN in
  let COLUMN_NUM := BASE_LEN in
  CheckParameters ROW_NUM COLUMN_NUM ;;;
  let seed := PRG.SetSeed None 0 in
  let '(vec_selection_bit, seed) := PRG.GenRandomBits seed BASE_LEN in
  vec_K <- NPOT_Receive (baseOT pp) vec_selection_bit BASE_LEN ;;
  let Q := repeat x00 (ROW_NUM / 8 * COLUMN_NUM) in
  st <- for_ 0 BASE_LEN (fun j '(seed, Q) k =>
      vec_inner_C0 <- ReceiveBlocks (ROW_NUM / 128) ;;
      vec_inner_C1 <- ReceiveBlocks (ROW_NUM / 128) ;;
      let seed := PRG.ReSeed seed (nth j vec_K 0%N) 0 in
      let '(vec_pad, seed) := PRG.GenRandomBlocks seed (ROW_NUM / 128) in
      let vec_plaintext :=
        if Byte.eqb (nth j vec_selection_bit x00) x00
        then Block.XOR vec_inner_C0 vec_pad
        else Block.XOR vec_inner_C1 vec_pad in
      let Q := store Q (j * ROW_NUM / 8)
                     (Block.ToDenseBits vec_plaintext (ROW_NUM / 128) ROW_NUM) in
      k (seed, Q)) (seed, Q) ;;
  k vec_selection_bit (snd st).

(** [Q_row_block] / [T_row_block] of row [i]: the block vector read at
    [M_transpose.data() + i*COLUMN_NUM/8]. *)
Definition row_block (M_transpose : list uint8_t) (i : nat) : list block :=
  let COLUMN_NUM := BASE_LEN in
  Block.FromDenseBits (skipn (i * COLUMN_NUM / 8) M_transpose)
                      BASE_LEN (BASE_LEN / 128).

Definition Send (pp : PP) (vec_m0 vec_m1 : list block) (EXTEND_LEN : nat)
  : proc basePP unit :=
  let ROW_NUM := EXTEND_LEN in
  let COLUMN_NUM := BASE_LEN in
  Send_Phase1 pp EXTEND_LEN (fun vec_selection_bit Q =>
  let Q_tanspose := empBitMatrixTranspose Q ROW_NUM COLUMN_NUM in
  let vec_selection_block :=
    Block.FromSparseBits vec_selection_bit BASE_LEN (BASE_LEN / 128) in
  let vec_outer_C0 := repeat 0%N ROW_NUM in
  let vec_outer_C1 := repeat 0%N ROW_NUM in
  let vec_outer :=
    loop 0 ROW_NUM (fun i '(vec_outer_C0, vec_outer_C1) =>
      let Q_row_block := row_block Q_tanspose i in
      let vec_outer_C0 :=
        assign vec_outer_C0 i
          (Block.xor (nth i vec_m0 0%N) (Hash.BlocksToBlock Q_row_block)) in
      let vec_outer_C1 :=
        assign vec_outer_C1 i
          (Block.xor (nth i vec_m1 0%N)
             (Hash.BlocksToBlock (Block.XOR Q_row_block vec_selection_block))) in
      (vec_outer_C0, vec_outer_C1)) (vec_outer_C0, vec_outer_C1) in
  SendBlocks (firstn ROW_NUM (fst vec_outer)) ;;;
  SendBlocks (firstn ROW_NUM (snd vec_outer)) ;;;
  Ret tt).

(** Phase 1 of the receiver, lines 212-264 of [Receive] and, verbatim,
    lines 431-480 of [OnesidedReceive]: the receiver transmits the
    encrypted matrix. The continuation receives [T]. *)
Definition Receive_Phase1 (R : Type) (pp : PP) (vec_selection_bit : list uint8_t)
           (EXTEND_LEN : nat) (k : list uint8_t -> proc basePP R) : proc basePP R :=
  let ROW_NUM := EXTEND_LEN in
  let COLUMN_NUM := BASE_LEN in
  CheckParameters ROW_NUM COLUMN_NUM ;;;
  let seed := PRG.SetSeed None 0 in
  let '(T, seed) := PRG.GenRandomBitMatrix seed ROW_NUM COLUMN_NUM in
  let '(vec_K0, seed) := PRG.GenRandomBlocks seed BASE_LEN in
  let '(vec_K1, seed) := PRG.GenRandomBlocks seed BASE_LEN in
  NPOT_Send (baseOT pp) vec_K0 vec_K1 BASE_LEN ;;;
  let vec_selection_block :=
    Block.FromSparseBits vec_selection_bit ROW_NUM (ROW_NUM / 128) in
  _ <- for_ 0 COLUMN_NUM (fun j seed k =>
      let vec_m0 :=
        Block.FromDenseBits (skipn (j * ROW_NUM / 8) T) ROW_NUM (ROW_NUM / 128) in
      let vec_m1 := Block.XOR vec_m0 vec_selection_block in
      let seed := PRG.ReSeed seed (nth j vec_K0 0%N) 0 in
      let '(vec_pad, seed) := PRG.GenRandomBlocks seed (ROW_NUM / 128) in
      let vec_inner_C0 := Block.XOR vec_m0 vec_pad in
      let seed := PRG.ReSeed seed (nth j vec_K1 0%N) 0 in
      let '(vec_pad, seed) := PRG.GenRandomBlocks seed (ROW_NUM / 128) in
      let vec_inner_C1 := Block.XOR vec_m1 vec_pad in
      SendBlocks (firstn (ROW_NUM / 128) vec_inner_C0) ;;;
      SendBlocks (firstn (ROW_NUM / 128) vec_inner_C1) ;;;
      k seed) seed ;;
  k T.

Definition Receive (pp : PP) (vec_selection_bit : list uint8_t) (EXTEND_LEN : nat)
  : proc basePP (list block) :=
  let vec_result := repeat 0%N EXTEND_LEN in
  let ROW_NUM := EXTEND_LEN in
  let COLUMN_NUM := BASE_LEN in
  Receive_Phase1 pp vec_selection_bit EXTEND_LEN (fun T =>
  let T_transpose := empBitMatrixTranspose T ROW_NUM COLUMN_NUM in
  vec_outer_C0 <- ReceiveBlocks ROW_NUM ;;
  vec_outer_C1 <- ReceiveBlocks ROW_NUM ;;
  let vec_result :=
    loop 0 ROW_NUM (fun i vec_result =>
      let T_row_block := row_block T_transpose i in
      if Byte.eqb (nth i vec_selection_bit x00) x00
      then assign vec_result i
             (Block.xor (nth i vec_outer_C0 0%N) (Hash.BlocksToBlock T_row_block))
      else assign vec_result i
             (Block.xor (nth i vec_outer_C1 0%N) (Hash.BlocksToBlock T_row_block)))
      vec_result in
  Ret vec_result).

Definition OnesidedSend (pp : PP) (vec_m : list block) (EXTEND_LEN : nat)
  : proc basePP unit :=
  let ROW_NUM := EXTEND_LEN in
  let COLUMN_NUM := BASE_LEN in
  Send_Phase1 pp EXTEND_LEN (fun vec_selection_bit Q =>
  let Q_tanspose := empBitMatrixTranspose Q ROW_NUM COLUMN_NUM in
  let vec_selection_block :=
    Block.FromSparseBits vec_selection_bit BASE_LEN (BASE_LEN / 128) in
  _ <- for_ 0 ROW_NUM (fun i (_ : unit) k =>
      let Q_row_block := row_block Q_tanspose i in
      let outer_C :=
        Block.xor (nth i vec_m 0%N)
          (Hash.BlocksToBlock (Block.XOR Q_row_block vec_selection_block)) in
      SendBlock outer_C ;;;
      k tt) tt ;;
  Ret tt).

(** the size of vec_result = the hamming weight of vec_selection_bit *)
Definition OnesidedReceive (pp : PP) (vec_selection_bit : list uint8_t)
           (EXTEND_LEN : nat) : proc basePP (list block) :=
  let vec_result : list block := [] in
  let ROW_NUM := EXTEND_LEN in
  let COLUMN_NUM := BASE_LEN in
  Receive_Phase1 pp vec_selection_bit EXTEND_LEN (fun T =>
  let T_transpose := empBitMatrixTranspose T ROW_NUM COLUMN_NUM in
  vec_result <- for_ 0 ROW_NUM (fun i vec_result k =>
      outer_C <- ReceiveBlock ;;
      let T_row_block := row_block T_transpose i in
      (* only decrypt when selection bit is 1 *)
      if Byte.eqb (nth i vec_selection_bit x00) x01
      then k (vec_result ++
                [Block.xor outer_C (Hash.BlocksToBlock T_row_block)])
      else k vec_result) vec_result ;;
  Ret vec_result).

End IKNPOTE.

(** ** What an honest run computes

    The values below name what the two parties hold and what crosses the
    wire in a run of the code above; the theorems relate the runs to
    them. *)

Section Run.

Context {prg : PRG.Oracle} {hash : Hash.Oracle}.

(** [PRG::SetSeed(nullptr, 0)], the first statement after the check. *)
Definition seed0 : PRG.Seed := PRG.SetSeed None 0.

(** The sender's base-OT selection bits [s]. *)
Definition sender_bits : list uint8_t := fst (PRG.GenRandomBits seed0 BASE_LEN).

(** The sender's selection block [S]. *)
Definition sender_block : list block :=
  Block.FromSparseBits sender_bits BASE_LEN (BASE_LEN / 128).

(** The receiver's matrix [T] and its two key vectors. *)
Definition matrix_T (N : nat) : list uint8_t :=
  fst (PRG.GenRandomBitMatrix seed0 N BASE_LEN).

Definition keys_K0 (N : nat) : list block :=
  fst (PRG.GenRandomBlocks (snd (PRG.GenRandomBitMatrix seed0 N BASE_LEN)) BASE_LEN).

Definition keys_K1 (N : nat) : list block :=
  fst (PRG.GenRandomBlocks
         (snd (PRG.GenRandomBlocks
                 (snd (PRG.GenRandomBitMatrix seed0 N BASE_LEN)) BASE_LEN))
         BASE_LEN).

(** The pad of [N/128] blocks drawn after reseeding with [key]. *)
Definition pad (N : nat) (key : block) : list block :=
  fst (PRG.GenRandomBlocks (PRG.ReSeed seed0 key 0) (N / 128)).

(** The receiver's selection block vector [R]. *)
Definition receiver_block (r : list uint8_t) (N : nat) : list block :=
  Block.FromSparseBits r N (N / 128).

(** Column [j] of [T] as a block vector, and the two ciphertexts of
    round [j]. *)
Definition column_T (N j : nat) : list block :=
  Block.FromDenseBits (skipn (j * N / 8) (matrix_T N)) N (N / 128).

Definition inner_C0 (N j : nat) : list block :=
  Block.XOR (column_T N j) (pad N (nth j (keys_K0 N) 0%N)).

Definition inner_C1 (r : list uint8_t) (N j : nat) : list block :=
  Block.XOR (Block.XOR (column_T N j) (receiver_block r N))
            (pad N (nth j (keys_K1 N) 0%N)).

Definition column_round (r : list uint8_t) (N j : nat) : list event :=
  [Blocks Receiver (inner_C0 N j); Blocks Receiver (inner_C1 r N j)].

(** Column [j] of the sender's matrix [Q], and [Q] itself. *)
Definition column_Q (r : list uint8_t) (N j : nat) : list block :=
  if Byte.eqb (nth j sender_bits x00) x00
  then column_T N j
  else Block.XOR (column_T N j) (receiver_block r N).

Definition write_column (r : list uint8_t) (N : nat) (Q : list uint8_t) (j : nat)
  : list uint8_t :=
  store Q (j * N / 8) (Block.ToDenseBits (column_Q r N j) (N / 128) N).

Definition matrix_Q (r : list uint8_t) (N : nat) : list uint8_t :=
  fold_left (write_column r N) (seq 0 BASE_LEN) (repeat x00 (N / 8 * BASE_LEN)).

(** Row [i] of [Q] and of [T], read from the transposes. *)
Definition Q_row (r : list uint8_t) (N i : nat) : list block :=
  row_block (empBitMatrixTranspose (matrix_Q r N) N BASE_LEN) i.

Definition T_row (N i : nat) : list block :=
  row_block (empBitMatrixTranspose (matrix_T N) N BASE_LEN) i.

(** The sender's final ciphertexts. *)
Definition outer_C0 (vec_m0 : list block) (r : list uint8_t) (N : nat) : list block :=
  map (fun i => Block.xor (nth i vec_m0 0%N) (Hash.BlocksToBlock (Q_row r N i)))
      (seq 0 N).

Definition outer_C1 (vec_m1 : list block) (r : list uint8_t) (N : nat) : list block :=
  map (fun i => Block.xor (nth i vec_m1 0%N)
                  (Hash.BlocksToBlock (Block.XOR (Q_row r N i) sender_block)))
      (seq 0 N).

(** The wire of the column phase, preceded by the base OT. *)
Definition phase1_wire (r : list uint8_t) (N : nat) : list event :=
  BaseOT BASE_LEN :: flat_map (column_round r N) (seq 0 BASE_LEN).

(** The ciphertext of row [i] in the one-sided variant. *)
Definition onesided_C (vec_m : list block) (r : list uint8_t) (N i : nat) : block :=
  Block.xor (nth i vec_m 0%N)
    (Hash.BlocksToBlock (Block.XOR (Q_row r N i) sender_block)).

(** What the receiver makes of the final ciphertexts. *)
Definition unmask (vec_outer_C0 vec_outer_C1 : list block) (r : list uint8_t)
           (N : nat) : list block :=
  map (fun i =>
         if Byte.eqb (nth i r x00) x00
         then Block.xor (nth i vec_outer_C0 0%N) (Hash.BlocksToBlock (T_row N i))
         else Block.xor (nth i vec_outer_C1 0%N) (Hash.BlocksToBlock (T_row N i)))
      (seq 0 N).

(** The wire of a whole run, standard and one-sided. *)
Definition standard_wire (vec_m0 vec_m1 : list block) (r : list uint8_t) (N : nat)
  : list event :=
  phase1_wire r N
  ++ [Blocks Sender (outer_C0 vec_m0 r N); Blocks Sender (outer_C1 vec_m1 r N)].

Definition onesided_wire (vec_m : list block) (r : list uint8_t) (N : nat)
  : list event :=
  phase1_wire r N
  ++ map (fun i => OneBlock Sender (onesided_C vec_m r N i)) (seq 0 N).

(** [s . r_i]: the block vector [S] when the bit [b] is set, zero
    otherwise. *)
Definition and_scale (S : list block) (b : uint8_t) : list block :=
  map (fun x => if sparse_bit b then x else 0%N) S.

(** Number of blocks (16 bytes each) that party [who] puts on the wire. *)
Definition party_eqb (a b : party) : bool :=
  match a, b with
  | Sender, Sender | Receiver, Receiver => true
  | _, _ => false
  end.

Definition blocks_of (who : party) (e : event) : nat :=
  match e with
  | BaseOT _ => 0
  | Blocks from data => if party_eqb from who then length data else 0
  | OneBlock from _ => if party_eqb from who then 1 else 0
  end.

Definition traffic (who : party) (wire : list event) : nat :=
  list_sum (map (blocks_of who) wire).

(** Number of entries equal to 1 in a selection vector. *)
Definition hamming_weight (r : list uint8_t) : nat :=
  length (filter (fun b => Byte.eqb b x01) r).

(** The indices [i < N] with [r_i = 1], in ascending order. *)
Definition ones (r : list uint8_t) (N : nat) : list nat :=
  filter (fun i => Byte.eqb (nth i r x00) x01) (seq 0 N).

End Run.

(** ** A concrete instance of the collaborators

    A counter-based generator, a folding hash and a one-byte base-OT
    parameter; the statements below are exercised on them. *)

Module Example.

Definition prg : PRG.Oracle.
Proof.
  refine {|
    PRG.Seed := N;
    PRG.SetSeed := fun salt id =>
      match salt with
      | Some key => (key + N.of_nat id)%N
      | None => N.of_nat id
      end;
    PRG.ReSeed := fun _ key id => (key + N.of_nat id)%N;
    PRG.GenRandomBlocks := fun s n =>
      (map (fun i => (s + N.of_nat i)%N) (seq 0 n), (s + N.of_nat n)%N);
    PRG.GenRandomBits := fun s n =>
      (map (fun i => if N.odd (s + N.of_nat i) then x01 else x00) (seq 0 n),
       (s + N.of_nat n)%N);
    PRG.GenRandomBitMatrix := fun s rows cols =>
      (map (fun i => if N.odd (s + N.of_nat i) then xa5 else x3c)
           (seq 0 (rows / 8 * cols)),
       (s + 1)%N)
  |}.
  - intros s n. cbn [fst]. now rewrite length_map, length_seq.
  - intros s n. cbn [fst]. now rewrite length_map, length_seq.
  - intros s n. cbn [fst]. apply Forall_forall. intros b Hb.
    apply in_map_iff in Hb. destruct Hb as (i & <- & _).
    destruct (N.odd _); [right|left]; reflexivity.
  - intros s rows cols. cbn [fst]. now rewrite length_map, length_seq.
  - reflexivity.
Defined.

Definition hash : Hash.Oracle :=
  {| Hash.BlocksToBlock := fold_right (fun b acc => (b + 3 * acc + 1)%N) 7%N |}.

Definition npot_io : NPOT.Serializer uint8_t.
Proof.
  refine {|
    NPOT.write := fun pp => [pp];
    NPOT.read := fun bytes =>
      match bytes with
      | b :: rest => Some (b, rest)
      | [] => None
      end
  |}.
  - reflexivity.
  - intros [|b bytes] pp rest H; [discriminate|]. now inversion H.
Defined.

Definition pp : @PP uint8_t := {| malicious := x00; baseOT := x2a |}.

Definition vec_m0 : list block := map N.of_nat (seq 0 128).
Definition vec_m1 : list block := map (fun i => N.of_nat (1000 + i)) (seq 0 128).
Definition vec_selection_bit : list uint8_t :=
  map (fun i => if Nat.even (i / 3) then x00 else x01) (seq 0 128).

Definition fs : filesystem :=
  {| content := fun _ => None; can_write := fun _ => true |}.

End Example.

(** * Properties *)

(** ** Bits of bytes and blocks *)

Lemma byte_bit_of_bits (f : nat -> bool) (k : nat) :
  k < 8 -> byte_bit (byte_of_bits f) k = f k.
Proof.
  intros Hk. unfold byte_bit, byte_bits, byte_of_bits.
  rewrite to_bits_of_bits.
  do 8 (destruct k as [|k]; [reflexivity|]). lia.
Qed.

Lemma existsb_eqb_seq (p a n : nat) :
  existsb (Nat.eqb p) (seq a n) = (a <=? p) && (p <? a + n).
Proof.
  revert a. induction n as [|n IH]; intros a; cbn [seq existsb].
  - destruct (Nat.leb_spec a p), (Nat.ltb_spec p (a + 0)); cbn; auto; lia.
  - rewrite IH.
    destruct (Nat.eqb_spec p a), (Nat.leb_spec a p), (Nat.leb_spec (S a) p),
      (Nat.ltb_spec p (S a + n)), (Nat.ltb_spec p (a + S n)); cbn; auto; lia.
Qed.

Lemma set_bits_spec (f : nat -> bool) (l : list nat) (p : nat) :
  N.testbit (set_bits f l) (N.of_nat p) = existsb (Nat.eqb p) l && f p.
Proof.
  induction l as [|a l IH]; cbn [set_bits fold_right existsb].
  - apply N.bits_0.
  - fold (set_bits f l). destruct (Nat.eqb_spec p a) as [->|Hne].
    + destruct (f a) eqn:Hf; cbn [orb andb].
      * rewrite N.setbit_eqb, N.eqb_refl. reflexivity.
      * rewrite IH. now rewrite ?Hf, ?andb_false_r.
    + destruct (f a); cbn [orb]; [|exact IH].
      rewrite N.setbit_eqb, IH.
      destruct (N.eqb_spec (N.of_nat a) (N.of_nat p)) as [E|_]; [|reflexivity].
      apply Nat2N.inj in E. congruence.
Qed.

Lemma block_bit_of_bits (f : nat -> bool) (p : nat) :
  block_bit (block_of_bits f) p = (p <? 128) && f p.
Proof.
  unfold block_bit, block_of_bits.
  rewrite set_bits_spec, existsb_eqb_seq. reflexivity.
Qed.

Lemma block_eq_bits (a b : block) :
  (forall p, block_bit a p = block_bit b p) -> a = b.
Proof.
  intros H. apply N.bits_inj. intros n.
  rewrite <- (N2Nat.id n). apply H.
Qed.

Lemma block_of_bits_ext (f g : nat -> bool) :
  (forall p, p < 128 -> f p = g p) -> block_of_bits f = block_of_bits g.
Proof.
  intros H. apply block_eq_bits. intros p. rewrite !block_bit_of_bits.
  destruct (Nat.ltb_spec p 128); cbn; auto.
Qed.

Lemma block_bit_xor (a b : block) (p : nat) :
  block_bit (Block.xor a b) p = xorb (block_bit a p) (block_bit b p).
Proof. unfold block_bit, Block.xor. apply N.lxor_spec. Qed.

Lemma xor_block_of_bits (f g : nat -> bool) :
  Block.xor (block_of_bits f) (block_of_bits g)
  = block_of_bits (fun p => xorb (f p) (g p)).
Proof.
  apply block_eq_bits. intros p.
  rewrite block_bit_xor, !block_bit_of_bits. destruct (p <? 128); reflexivity.
Qed.

Lemma xor_cancel (a b : block) : Block.xor (Block.xor a b) b = a.
Proof.
  unfold Block.xor. now rewrite N.lxor_assoc, N.lxor_nilpotent, N.lxor_0_r.
Qed.

(** ** Vectors *)

Lemma nth_map_seq (A : Type) (f : nat -> A) (n i : nat) (d : A) :
  i < n -> nth i (map f (seq 0 n)) d = f i.
Proof.
  intros Hi. rewrite (nth_indep _ d (f 0)) by now rewrite length_map, length_seq.
  rewrite map_nth, seq_nth by exact Hi. reflexivity.
Qed.

Lemma multiple_of_128 (N : nat) : N mod 128 = 0 -> exists n, N = 128 * n.
Proof. intros H. exists (N / 128). lia. Qed.

Lemma length_XOR (a b : list block) :
  length (Block.XOR a b) = Nat.min (length a) (length b).
Proof.
  revert b. induction a as [|x a IH]; intros [|y b]; cbn [Block.XOR length];
    auto. now rewrite IH.
Qed.

Lemma nth_XOR (a b : list block) (i : nat) :
  i < length a -> i < length b ->
  nth i (Block.XOR a b) 0%N = Block.xor (nth i a 0%N) (nth i b 0%N).
Proof.
  revert b i. induction a as [|x a IH]; intros [|y b] [|i]; cbn [Block.XOR length nth];
    try lia; auto. intros. apply IH; lia.
Qed.

Lemma XOR_cancel (a b : list block) :
  length a = length b -> Block.XOR (Block.XOR a b) b = a.
Proof.
  revert b. induction a as [|x a IH]; intros [|y b]; cbn [Block.XOR length];
    try discriminate; auto.
  intros H. now rewrite xor_cancel, IH by lia.
Qed.

Lemma length_ToDenseBits (v : list block) (BLOCK_LEN BIT_LEN : nat) :
  length (Block.ToDenseBits v BLOCK_LEN BIT_LEN) = BIT_LEN / 8.
Proof. unfold Block.ToDenseBits. now rewrite length_map, length_seq. Qed.

Lemma length_FromDenseBits (v : list uint8_t) (BIT_LEN BLOCK_LEN : nat) :
  length (Block.FromDenseBits v BIT_LEN BLOCK_LEN) = BLOCK_LEN.
Proof. unfold Block.FromDenseBits. now rewrite length_map, length_seq. Qed.

Lemma length_FromSparseBits (v : list uint8_t) (BIT_LEN BLOCK_LEN : nat) :
  length (Block.FromSparseBits v BIT_LEN BLOCK_LEN) = BLOCK_LEN.
Proof. unfold Block.FromSparseBits. now rewrite length_map, length_seq. Qed.

Lemma length_empBitMatrixTranspose (M : list uint8_t) (rows cols : nat) :
  length (empBitMatrixTranspose M rows cols) = rows / 8 * cols.
Proof. unfold empBitMatrixTranspose. now rewrite length_map, length_seq. Qed.

Lemma length_store (A : Type) (v : list A) (off : nat) (bytes : list A) :
  off + length bytes <= length v -> length (store v off bytes) = length v.
Proof.
  intros H. unfold store. rewrite !length_app, length_firstn, length_skipn. lia.
Qed.

Lemma nth_store (A : Type) (v : list A) (off : nat) (bytes : list A) (i : nat) (d : A) :
  off + length bytes <= length v ->
  nth i (store v off bytes) d
  = if (off <=? i) && (i <? off + length bytes)
    then nth (i - off) bytes d else nth i v d.
Proof.
  intros H. unfold store.
  assert (Hf : length (firstn off v) = off) by (rewrite length_firstn; lia).
  destruct (Nat.leb_spec off i) as [Hle|Hlt]; cbn [andb].
  - rewrite app_nth2 by lia. rewrite Hf.
    destruct (Nat.ltb_spec i (off + length bytes)) as [Hin|Hout].
    + apply app_nth1. lia.
    + rewrite app_nth2 by lia. rewrite nth_skipn. f_equal. lia.
  - rewrite app_nth1 by lia. rewrite nth_firstn.
    destruct (Nat.ltb_spec i off); [reflexivity|lia].
Qed.

Lemma length_assign (A : Type) (v : list A) (i : nat) (x : A) :
  length (assign v i x) = length v.
Proof.
  revert i. induction v as [|h v IH]; intros [|i]; cbn [assign length]; auto.
Qed.

Lemma nth_assign (A : Type) (v : list A) (i j : nat) (x d : A) :
  nth j (assign v i x) d
  = if (i =? j) && (j <? length v) then x else nth j v d.
Proof.
  revert i j. induction v as [|h v IH]; intros [|i] [|j]; cbn [assign nth length];
    try reflexivity.
  - rewrite andb_false_r. reflexivity.
  - rewrite IH. reflexivity.
Qed.

(** ** Bits of packed matrices *)

Lemma FromDenseBits_bit (M : list uint8_t) (n j k p : nat) :
  k < n -> p < 128 ->
  block_bit (nth k (Block.FromDenseBits (skipn (j * (128 * n) / 8) M)
                                        (128 * n) (128 * n / 128)) 0%N) p
  = matrix_bit M (128 * n) (128 * k + p) j.
Proof.
  intros Hk Hp. replace (128 * n / 128) with n by lia.
  unfold Block.FromDenseBits. rewrite nth_map_seq by exact Hk.
  rewrite block_bit_of_bits.
  destruct (Nat.ltb_spec p 128) as [_|]; [cbn [andb]|lia].
  rewrite nth_skipn. unfold matrix_bit.
  replace (128 * n / 8) with (16 * n) by lia.
  f_equal. f_equal. lia.
Qed.

Lemma FromSparseBits_bit (r : list uint8_t) (BIT_LEN n k p : nat) :
  k < n -> p < 128 ->
  block_bit (nth k (Block.FromSparseBits r BIT_LEN n) 0%N) p
  = sparse_bit (nth (128 * k + p) r x00).
Proof.
  intros Hk Hp. unfold Block.FromSparseBits. rewrite nth_map_seq by exact Hk.
  rewrite block_bit_of_bits.
  destruct (Nat.ltb_spec p 128) as [_|]; [reflexivity|lia].
Qed.

Lemma ToDenseBits_bit (v : list block) (n i : nat) :
  i < 128 * n ->
  byte_bit (nth (i / 8) (Block.ToDenseBits v n (128 * n)) x00) (i mod 8)
  = block_bit (nth (i / 128) v 0%N) (i mod 128).
Proof.
  intros Hi. unfold Block.ToDenseBits.
  rewrite nth_map_seq by lia. rewrite byte_bit_of_bits by lia.
  f_equal; [f_equal|]; lia.
Qed.

Lemma transpose_bit (M : list uint8_t) (n i p : nat) :
  i < 128 * n -> p < 128 ->
  matrix_bit (empBitMatrixTranspose M (128 * n) 128) 128 p i
  = matrix_bit M (128 * n) i p.
Proof.
  intros Hi Hp. unfold matrix_bit at 1. unfold empBitMatrixTranspose.
  change (128 / 8) with 16. rewrite nth_map_seq by lia. rewrite byte_bit_of_bits by lia.
  f_equal; lia.
Qed.

Lemma row_block_transpose (M : list uint8_t) (n i : nat) :
  i < 128 * n ->
  row_block (empBitMatrixTranspose M (128 * n) BASE_LEN) i
  = [block_of_bits (fun p => matrix_bit M (128 * n) i p)].
Proof.
  intros Hi. unfold row_block, BASE_LEN, Block.FromDenseBits.
  change (128 / 128) with 1. cbn [seq map]. f_equal.
  apply block_of_bits_ext. intros p Hp. rewrite nth_skipn.
  rewrite <- (@transpose_bit M n i p Hi Hp). unfold matrix_bit.
  change (128 / 8) with 16.
  replace (i * 128 / 8 + (128 * 0 + p) / 8) with (i * 16 + p / 8) by lia.
  replace ((128 * 0 + p) mod 8) with (p mod 8) by lia. reflexivity.
Qed.

(** ** The matrices of a run *)

Section Matrices.

Context {prg : PRG.Oracle}.

Variable r : list uint8_t.

Lemma length_pad (N : nat) (key : block) : length (pad N key) = N / 128.
Proof. apply PRG.GenRandomBlocks_length. Qed.

Lemma length_matrix_T (N : nat) : length (matrix_T N) = N / 8 * BASE_LEN.
Proof. apply PRG.GenRandomBitMatrix_length. Qed.

Lemma length_column_T (N j : nat) : length (column_T N j) = N / 128.
Proof. apply length_FromDenseBits. Qed.

Lemma length_receiver_block (N : nat) : length (receiver_block r N) = N / 128.
Proof. apply length_FromSparseBits. Qed.

Lemma length_inner_C0 (N j : nat) : length (inner_C0 N j) = N / 128.
Proof.
  unfold inner_C0. rewrite length_XOR, length_column_T, length_pad. lia.
Qed.

Lemma length_inner_C1 (N j : nat) : length (inner_C1 r N j) = N / 128.
Proof.
  unfold inner_C1.
  rewrite !length_XOR, length_column_T, length_receiver_block, length_pad. lia.
Qed.

Lemma length_column_Q (N j : nat) : length (column_Q r N j) = N / 128.
Proof.
  unfold column_Q. destruct (Byte.eqb _ _).
  - apply length_column_T.
  - rewrite length_XOR, length_column_T, length_receiver_block. lia.
Qed.

(** The columns written so far hold the bytes of [column_Q]; the others
    are untouched. *)
Lemma write_columns (n c j : nat) (Q : list uint8_t) :
  length Q = 16 * n * 128 -> j + c <= 128 ->
  let Q' := fold_left (write_column r (128 * n)) (seq j c) Q in
  length Q' = length Q /\
  forall jj q, jj < 128 -> q < 16 * n ->
    nth (jj * (16 * n) + q) Q' x00
    = if (j <=? jj) && (jj <? j + c)
      then nth q (Block.ToDenseBits (column_Q r (128 * n) jj) n (128 * n)) x00
      else nth (jj * (16 * n) + q) Q x00.
Proof.
  revert j Q. induction c as [|c IH]; intros j Q HQ Hj; cbn [seq fold_left].
  - split; [reflexivity|]. intros jj q _ _.
    destruct (Nat.leb_spec j jj), (Nat.ltb_spec jj (j + 0)); cbn [andb];
      try reflexivity; lia.
  - assert (Hoff : j * (128 * n) / 8 = j * (16 * n)) by lia.
    assert (Hlen : length (Block.ToDenseBits (column_Q r (128 * n) j)
                             (128 * n / 128) (128 * n)) = 16 * n)
      by (rewrite length_ToDenseBits; lia).
    assert (Hfit : j * (16 * n) + 16 * n <= length Q) by nia.
    assert (HQ1 : length (write_column r (128 * n) Q j) = 16 * n * 128).
    { unfold write_column. rewrite length_store; [exact HQ|].
      rewrite Hoff, Hlen. exact Hfit. }
    destruct (IH (S j) _ HQ1 ltac:(lia)) as [IHlen IHnth].
    split; [rewrite IHlen, HQ1, HQ; reflexivity|].
    intros jj q Hjj Hq. rewrite IHnth by assumption.
    destruct (Nat.leb_spec (S j) jj) as [Hgt|Hle]; cbn [andb].
    + destruct (Nat.leb_spec j jj); [cbn [andb]|lia].
      destruct (Nat.ltb_spec jj (S j + c)), (Nat.ltb_spec jj (j + S c));
        try reflexivity; try lia.
      unfold write_column. rewrite nth_store by (rewrite Hoff, Hlen; exact Hfit).
      rewrite Hoff, Hlen.
      assert (j * n + n <= jj * n) by nia.
      destruct (Nat.leb_spec (j * (16 * n)) (jj * (16 * n) + q)); [cbn [andb]|lia].
      destruct (Nat.ltb_spec (jj * (16 * n) + q) (j * (16 * n) + 16 * n));
        [lia|reflexivity].
    + unfold write_column. rewrite nth_store by (rewrite Hoff, Hlen; exact Hfit).
      rewrite Hoff, Hlen.
      destruct (Nat.eq_dec jj j) as [->|Hne].
      * destruct (Nat.leb_spec j j); [cbn [andb]|lia].
        destruct (Nat.ltb_spec j (j + S c)); [|lia].
        destruct (Nat.leb_spec (j * (16 * n)) (j * (16 * n) + q)); [cbn [andb]|lia].
        destruct (Nat.ltb_spec (j * (16 * n) + q) (j * (16 * n) + 16 * n)); [|lia].
        replace (128 * n / 128) with n by lia. f_equal. lia.
      * assert (jj * n + n <= j * n) by nia.
        destruct (Nat.leb_spec j jj); [lia|cbn [andb]].
        destruct (Nat.leb_spec (j * (16 * n)) (jj * (16 * n) + q)); [lia|].
        reflexivity.
Qed.

Lemma length_matrix_Q (n : nat) :
  length (matrix_Q r (128 * n)) = 16 * n * 128.
Proof.
  unfold matrix_Q, BASE_LEN.
  assert (H0 : length (repeat x00 (128 * n / 8 * 128)) = 16 * n * 128)
    by (rewrite repeat_length; lia).
  destruct (@write_columns n 128 0 _ H0 ltac:(lia)) as [-> _]. exact H0.
Qed.

(** Element [(i, j)] of [Q] is bit [i] of the plaintext column [j]. *)
Lemma matrix_Q_column (n i j : nat) :
  i < 128 * n -> j < 128 ->
  matrix_bit (matrix_Q r (128 * n)) (128 * n) i j
  = block_bit (nth (i / 128) (column_Q r (128 * n) j) 0%N) (i mod 128).
Proof.
  intros Hi Hj. unfold matrix_bit, matrix_Q, BASE_LEN.
  assert (H0 : length (repeat x00 (128 * n / 8 * 128)) = 16 * n * 128)
    by (rewrite repeat_length; lia).
  destruct (@write_columns n 128 0 _ H0 ltac:(lia)) as [_ Hnth].
  replace (j * (128 * n / 8) + i / 8) with (j * (16 * n) + i / 8)
    by (replace (128 * n / 8) with (16 * n) by lia; reflexivity).
  rewrite Hnth by lia. cbn [Nat.leb andb].
  destruct (Nat.ltb_spec j (0 + 128)); [|lia].
  apply ToDenseBits_bit. exact Hi.
Qed.

(** The correlation between the two matrices, bit by bit. *)
Lemma matrix_Q_bit (n i j : nat) :
  i < 128 * n -> j < 128 ->
  matrix_bit (matrix_Q r (128 * n)) (128 * n) i j
  = xorb (matrix_bit (matrix_T (128 * n)) (128 * n) i j)
         (sparse_bit (nth j sender_bits x00) && sparse_bit (nth i r x00)).
Proof.
  intros Hi Hj. rewrite matrix_Q_column by assumption.
  assert (Hk : i / 128 < n) by lia.
  assert (Hp : i mod 128 < 128) by lia.
  assert (HT : block_bit (nth (i / 128) (column_T (128 * n) j) 0%N) (i mod 128)
               = matrix_bit (matrix_T (128 * n)) (128 * n) i j).
  { unfold column_T. rewrite FromDenseBits_bit by assumption.
    f_equal. lia. }
  unfold column_Q, sparse_bit at 1.
  destruct (Byte.eqb (nth j sender_bits x00) x00); cbn [negb andb].
  - rewrite HT. now rewrite xorb_false_r.
  - rewrite nth_XOR
      by (rewrite ?length_column_T, ?length_receiver_block; lia).
    rewrite block_bit_xor, HT. f_equal.
    unfold receiver_block. replace (128 * n / 128) with n by lia.
    rewrite FromSparseBits_bit by assumption. f_equal. f_equal. lia.
Qed.

Lemma Q_row_bits (n i : nat) :
  i < 128 * n ->
  Q_row r (128 * n) i
  = [block_of_bits (fun p =>
       xorb (matrix_bit (matrix_T (128 * n)) (128 * n) i p)
            (sparse_bit (nth p sender_bits x00) && sparse_bit (nth i r x00)))].
Proof.
  intros Hi. unfold Q_row. rewrite row_block_transpose by exact Hi.
  f_equal. apply block_of_bits_ext. intros p Hp. now apply matrix_Q_bit.
Qed.

Lemma T_row_bits (n i : nat) :
  i < 128 * n ->
  T_row (128 * n) i
  = [block_of_bits (fun p => matrix_bit (matrix_T (128 * n)) (128 * n) i p)].
Proof. intros Hi. unfold T_row. now apply row_block_transpose. Qed.

Lemma sender_block_bits :
  sender_block = [block_of_bits (fun p => sparse_bit (nth p sender_bits x00))].
Proof.
  unfold sender_block, BASE_LEN, Block.FromSparseBits.
  change (128 / 128) with 1. reflexivity.
Qed.

(** Row [i] of [Q] is row [i] of [T] when [r_i = 0]. *)
Lemma Q_row_0 (n i : nat) :
  i < 128 * n -> nth i r x00 = x00 -> Q_row r (128 * n) i = T_row (128 * n) i.
Proof.
  intros Hi Hr. rewrite Q_row_bits, T_row_bits by exact Hi. f_equal.
  apply block_of_bits_ext. intros p _. rewrite Hr. cbn.
  now rewrite andb_false_r, xorb_false_r.
Qed.

(** Row [i] of [Q] is row [i] of [T] xor [S] when [r_i = 1]. *)
Lemma Q_row_1 (n i : nat) :
  i < 128 * n -> nth i r x00 = x01 ->
  Q_row r (128 * n) i = Block.XOR (T_row (128 * n) i) sender_block.
Proof.
  intros Hi Hr. rewrite Q_row_bits, T_row_bits, sender_block_bits by exact Hi.
  cbn [Block.XOR]. rewrite xor_block_of_bits. f_equal.
  apply block_of_bits_ext. intros p _. rewrite Hr. cbn.
  now rewrite andb_true_r.
Qed.

Lemma Q_row_1_xor (n i : nat) :
  i < 128 * n -> nth i r x00 = x01 ->
  Block.XOR (Q_row r (128 * n) i) sender_block = T_row (128 * n) i.
Proof.
  intros Hi Hr. rewrite Q_row_1 by assumption. apply XOR_cancel.
  rewrite T_row_bits, sender_block_bits by exact Hi. reflexivity.
Qed.

End Matrices.

(** ** Phase 1 in lock step *)

Section Phase1.

Context {basePP : Type} {prg : PRG.Oracle}.

Lemma nth_ideal (K0 K1 : list block) (bits : list uint8_t) (LEN j : nat) :
  j < LEN ->
  nth j (NPOT.ideal K0 K1 bits LEN) 0%N
  = if Byte.eqb (nth j bits x00) x00 then nth j K0 0%N else nth j K1 0%N.
Proof. intros Hj. unfold NPOT.ideal. now rewrite nth_map_seq. Qed.

(** The plaintext column the sender recovers in round [j]. *)
Lemma sender_plaintext (r : list uint8_t) (N j : nat) :
  (if Byte.eqb (nth j sender_bits x00) x00
   then Block.XOR (inner_C0 N j)
          (pad N (if Byte.eqb (nth j sender_bits x00) x00
                  then nth j (keys_K0 N) 0%N else nth j (keys_K1 N) 0%N))
   else Block.XOR (inner_C1 r N j)
          (pad N (if Byte.eqb (nth j sender_bits x00) x00
                  then nth j (keys_K0 N) 0%N else nth j (keys_K1 N) 0%N)))
  = column_Q r N j.
Proof.
  unfold column_Q, inner_C0, inner_C1.
  destruct (Byte.eqb (nth j sender_bits x00) x00).
  - apply XOR_cancel. now rewrite length_column_T, length_pad.
  - apply XOR_cancel.
    rewrite length_XOR, length_column_T, length_receiver_block, length_pad. lia.
Qed.

Lemma phase1_run (A B : Type) (pp pp' : @PP basePP) (r : list uint8_t) (N : nat)
      (kS : list uint8_t -> list uint8_t -> proc basePP A)
      (kR : list uint8_t -> proc basePP B) (wire : list event) :
  N mod 128 = 0 ->
  run (Send_Phase1 pp N kS) (Receive_Phase1 pp' r N kR) wire
  = run (kS sender_bits (matrix_Q r N)) (kR (matrix_T N))
        (wire ++ phase1_wire r N).
Proof.
  intros HN. unfold Send_Phase1, Receive_Phase1, CheckParameters.
  rewrite HN. change (BASE_LEN mod 128) with 0. cbn [Nat.eqb negb orb].
  destruct (PRG.GenRandomBits (PRG.SetSeed None 0) BASE_LEN)
    as [bits seedS] eqn:Ebits.
  assert (Hs : bits = sender_bits)
    by (unfold sender_bits, seed0; now rewrite Ebits).
  destruct (PRG.GenRandomBitMatrix (PRG.SetSeed None 0) N BASE_LEN)
    as [T seed1] eqn:ET.
  destruct (PRG.GenRandomBlocks seed1 BASE_LEN) as [K0 seed2] eqn:EK0.
  destruct (PRG.GenRandomBlocks seed2 BASE_LEN) as [K1 seed3] eqn:EK1.
  assert (HT : T = matrix_T N)
    by (unfold matrix_T, seed0; now rewrite ET).
  assert (HK0 : K0 = keys_K0 N)
    by (unfold keys_K0, seed0; rewrite ET; cbn [snd]; now rewrite EK0).
  assert (HK1 : K1 = keys_K1 N)
    by (unfold keys_K1, seed0; rewrite ET; cbn [snd]; rewrite EK0; cbn [snd];
        now rewrite EK1).
  subst bits T K0 K1. clear Ebits ET EK0 EK1.
  cbn [run]. unfold phase1_wire, matrix_Q.
  change (wire ++ BaseOT BASE_LEN :: flat_map (column_round r N) (seq 0 BASE_LEN))
    with (wire ++ [BaseOT BASE_LEN] ++ flat_map (column_round r N) (seq 0 BASE_LEN)).
  rewrite app_assoc.
  match goal with
  | |- run (for_ 0 BASE_LEN ?bS _ ?kS') (for_ 0 BASE_LEN ?bR _ ?kR') _ = _ =>
      assert (Hloop : forall c j sS sR Q w, j + c <= 128 ->
        run (for_ j c bS (sS, Q) kS') (for_ j c bR sR kR') w
        = run (kS sender_bits (fold_left (write_column r N) (seq j c) Q))
              (kR (matrix_T N))
              (w ++ flat_map (column_round r N) (seq j c)))
  end.
  { clear seedS seed1 seed2 seed3 wire.
    induction c as [|c IH]; intros j sS sR Q w Hj;
      cbn [for_ seq fold_left flat_map].
    - cbn [snd]. now rewrite app_nil_r.
    - rewrite (PRG.ReSeed_fresh sR seed0).
      destruct (PRG.GenRandomBlocks (PRG.ReSeed seed0 (nth j (keys_K0 N) 0%N) 0)
                                    (N / 128)) as [pad0 sR1] eqn:E0.
      rewrite (PRG.ReSeed_fresh sR1 seed0).
      destruct (PRG.GenRandomBlocks (PRG.ReSeed seed0 (nth j (keys_K1 N) 0%N) 0)
                                    (N / 128)) as [pad1 sR2] eqn:E1.
      assert (Hp0 : pad0 = pad N (nth j (keys_K0 N) 0%N))
        by (unfold pad; now rewrite E0).
      assert (Hp1 : pad1 = pad N (nth j (keys_K1 N) 0%N))
        by (unfold pad; now rewrite E1).
      subst pad0 pad1. clear E0 E1.
      fold (column_T N j). fold (receiver_block r N).
      fold (inner_C0 N j). fold (inner_C1 r N j).
      rewrite !firstn_all2 by (rewrite ?length_inner_C0, ?length_inner_C1; lia).
      cbn [run]. rewrite length_inner_C0, Nat.eqb_refl.
      cbn [run]. rewrite length_inner_C1, Nat.eqb_refl.
      rewrite (PRG.ReSeed_fresh sS seed0).
      rewrite nth_ideal by (unfold BASE_LEN; lia).
      destruct (PRG.GenRandomBlocks _ (N / 128)) as [padS sS1] eqn:ES.
      assert (HpS : padS = pad N (if Byte.eqb (nth j sender_bits x00) x00
                                  then nth j (keys_K0 N) 0%N
                                  else nth j (keys_K1 N) 0%N))
        by (unfold pad; now rewrite ES).
      subst padS. clear ES.
      rewrite (sender_plaintext r N j).
      fold (write_column r N Q j).
      rewrite IH by lia. rewrite <- !app_assoc. reflexivity. }
  apply Hloop. unfold BASE_LEN. lia.
Qed.

End Phase1.

(** ** Loops that fill a vector *)

Lemma loop_ext (S : Type) (body body' : nat -> S -> S) (c j : nat) (st : S) :
  (forall i s, body i s = body' i s) ->
  loop j c body st = loop j c body' st.
Proof.
  intros H. revert j st. induction c as [|c IH]; intros j st; cbn [loop];
    [reflexivity|]. now rewrite H, IH.
Qed.

Lemma loop_pair (A B : Type) (F : nat -> A -> A) (G : nat -> B -> B)
      (c j : nat) (a : A) (b : B) :
  loop j c (fun i '(a, b) => (F i a, G i b)) (a, b)
  = (loop j c F a, loop j c G b).
Proof.
  revert j a b. induction c as [|c IH]; intros j a b; cbn [loop];
    [reflexivity|]. apply IH.
Qed.

Lemma length_loop_assign (A : Type) (f : nat -> A) (c j : nat) (v : list A) :
  length (loop j c (fun i v => assign v i (f i)) v) = length v.
Proof.
  revert j v. induction c as [|c IH]; intros j v; cbn [loop]; [reflexivity|].
  now rewrite IH, length_assign.
Qed.

Lemma nth_loop_assign (A : Type) (f : nat -> A) (c j : nat) (v : list A)
      (i : nat) (d : A) :
  nth i (loop j c (fun i v => assign v i (f i)) v) d
  = if (j <=? i) && (i <? j + c) && (i <? length v) then f i else nth i v d.
Proof.
  revert j v. induction c as [|c IH]; intros j v; cbn [loop].
  - destruct (Nat.leb_spec j i), (Nat.ltb_spec i (j + 0)); cbn [andb];
      try reflexivity; lia.
  - rewrite IH, length_assign, nth_assign.
    destruct (Nat.leb_spec (S j) i), (Nat.leb_spec j i), (Nat.eqb_spec j i),
      (Nat.ltb_spec i (S j + c)), (Nat.ltb_spec i (j + S c)),
      (Nat.ltb_spec i (length v)); cbn [andb]; subst; try reflexivity; lia.
Qed.

(** A loop that assigns [f i] to every element of a vector of [n] elements
    yields the vector of the [f i]. *)
Lemma loop_assign_all (A : Type) (f : nat -> A) (n : nat) (v : list A) :
  length v = n ->
  loop 0 n (fun i v => assign v i (f i)) v = map f (seq 0 n).
Proof.
  intros Hv. apply (nth_ext _ _ (f 0) (f 0)).
  - now rewrite length_loop_assign, length_map, length_seq.
  - intros i Hi. rewrite length_loop_assign in Hi.
    rewrite nth_loop_assign, nth_map_seq by lia.
    destruct (Nat.ltb_spec i (0 + n)), (Nat.ltb_spec i (length v));
      cbn [Nat.leb andb]; try reflexivity; lia.
Qed.

(** ** The indices selected by a bit vector *)

Lemma length_filter_indices (A : Type) (p : A -> bool) (d : A) (l : list A) :
  length (filter (fun i => p (nth i l d)) (seq 0 (length l)))
  = length (filter p l).
Proof.
  induction l as [|a l IH]; cbn [length seq filter]; [reflexivity|].
  rewrite <- seq_shift.
  assert (E : filter (fun i => p (nth i (a :: l) d)) (map S (seq 0 (length l)))
              = map S (filter (fun i => p (nth i l d)) (seq 0 (length l)))).
  { generalize (seq 0 (length l)). intros s.
    induction s as [|x s IHs]; cbn [map filter]; [reflexivity|].
    rewrite IHs. change (nth (S x) (a :: l) d) with (nth x l d).
    destruct (p (nth x l d)); reflexivity. }
  change (nth 0 (a :: l) d) with a.
  destruct (p a); cbn [length]; rewrite E, length_map, IH; reflexivity.
Qed.

Lemma hamming_weight_ones (r : list uint8_t) :
  length (ones r (length r)) = hamming_weight r.
Proof.
  unfold ones, hamming_weight.
  apply (length_filter_indices (fun b => Byte.eqb b x01) x00 r).
Qed.

Lemma In_ones (r : list uint8_t) (N i : nat) :
  In i (ones r N) <-> i < N /\ nth i r x00 = x01.
Proof.
  unfold ones. rewrite filter_In, in_seq. split.
  - intros [H E]. split; [lia|]. now apply byte_dec_bl.
  - intros [H E]. split; [lia|]. rewrite E. reflexivity.
Qed.

(** ** Whole runs *)

Section Runs.

Context {basePP : Type} {prg : PRG.Oracle} {hash : Hash.Oracle}.

Lemma length_outer_C0 (vec_m0 : list block) (r : list uint8_t) (N : nat) :
  length (outer_C0 vec_m0 r N) = N.
Proof. unfold outer_C0. now rewrite length_map, length_seq. Qed.

Lemma length_outer_C1 (vec_m1 : list block) (r : list uint8_t) (N : nat) :
  length (outer_C1 vec_m1 r N) = N.
Proof. unfold outer_C1. now rewrite length_map, length_seq. Qed.

Lemma length_unmask (C0 C1 : list block) (r : list uint8_t) (N : nat) :
  length (unmask C0 C1 r N) = N.
Proof. unfold unmask. now rewrite length_map, length_seq. Qed.

(** The standard variant. *)
Lemma Send_Receive_run (pp pp' : @PP basePP) (vec_m0 vec_m1 : list block)
      (r : list uint8_t) (N : nat) :
  N mod 128 = 0 ->
  run (Send pp vec_m0 vec_m1 N) (Receive pp' r N) []
  = Finished tt (unmask (outer_C0 vec_m0 r N) (outer_C1 vec_m1 r N) r N)
             (standard_wire vec_m0 vec_m1 r N).
Proof.
  intros HN. unfold Send, Receive. rewrite phase1_run by exact HN.
  cbv beta zeta. rewrite loop_pair. cbn [fst snd].
  fold sender_block.
  rewrite !loop_assign_all by apply repeat_length.
  match goal with
  | |- run (SendBlocks (firstn N ?a) (SendBlocks (firstn N ?b) _)) _ _ = _ =>
      change a with (outer_C0 vec_m0 r N);
      change b with (outer_C1 vec_m1 r N)
  end.
  rewrite !firstn_all2 by (rewrite ?length_outer_C0, ?length_outer_C1; lia).
  cbn [run]. rewrite length_outer_C0, Nat.eqb_refl.
  cbn [run]. rewrite length_outer_C1, Nat.eqb_refl.
  cbn [run app]. unfold standard_wire. rewrite <- app_assoc. cbn [app].
  f_equal.
  rewrite (loop_ext _
    (fun i v => assign v i
       (if Byte.eqb (nth i r x00) x00
        then Block.xor (nth i (outer_C0 vec_m0 r N) 0%N)
               (Hash.BlocksToBlock (T_row N i))
        else Block.xor (nth i (outer_C1 vec_m1 r N) 0%N)
               (Hash.BlocksToBlock (T_row N i)))))
    by (intros i v; destruct (Byte.eqb (nth i r x00) x00); reflexivity).
  rewrite loop_assign_all by apply repeat_length. reflexivity.
Qed.

(** What the receiver unmasks is the selected message. *)
Lemma nth_unmask (vec_m0 vec_m1 : list block) (r : list uint8_t) (N i : nat) :
  N mod 128 = 0 -> i < N -> is_sparse_bit (nth i r x00) ->
  nth i (unmask (outer_C0 vec_m0 r N) (outer_C1 vec_m1 r N) r N) 0%N
  = if Byte.eqb (nth i r x00) x00 then nth i vec_m0 0%N else nth i vec_m1 0%N.
Proof.
  intros HN Hi Hr. destruct (multiple_of_128 N HN) as [n ->].
  unfold unmask. rewrite nth_map_seq by exact Hi.
  unfold outer_C0, outer_C1. rewrite !nth_map_seq by exact Hi.
  destruct Hr as [Hr|Hr]; rewrite Hr; cbn [Byte.eqb].
  - change (Byte.eqb x00 x00) with true. cbv iota.
    rewrite (@Q_row_0 _ r _ _ Hi Hr). apply xor_cancel.
  - change (Byte.eqb x01 x00) with false. cbv iota.
    rewrite (@Q_row_1_xor _ r _ _ Hi Hr). apply xor_cancel.
Qed.

(** The one-sided variant. *)
Lemma OnesidedSend_OnesidedReceive_run (pp pp' : @PP basePP) (vec_m : list block)
      (r : list uint8_t) (N : nat) :
  N mod 128 = 0 ->
  run (OnesidedSend pp vec_m N) (OnesidedReceive pp' r N) []
  = Finished tt
      (map (fun i => Block.xor (onesided_C vec_m r N i)
                       (Hash.BlocksToBlock (T_row N i)))
           (ones r N))
      (onesided_wire vec_m r N).
Proof.
  intros HN. unfold OnesidedSend, OnesidedReceive.
  rewrite phase1_run by exact HN. cbv beta zeta.
  unfold onesided_wire, ones. cbn [app].
  generalize (phase1_wire r N) as w0.
  match goal with
  | |- forall w0, run (for_ 0 N ?bS tt ?kS) (for_ 0 N ?bR [] ?kR) _ = _ =>
      assert (Hloop : forall c j res w,
        run (for_ j c bS tt kS) (for_ j c bR res kR) w
        = Finished tt
            (res ++ map (fun i => Block.xor (onesided_C vec_m r N i)
                                    (Hash.BlocksToBlock (T_row N i)))
                        (filter (fun i => Byte.eqb (nth i r x00) x01) (seq j c)))
            (w ++ map (fun i => OneBlock Sender (onesided_C vec_m r N i))
                      (seq j c)))
  end.
  { induction c as [|c IH]; intros j res w; cbn [for_ run seq filter map].
    - now rewrite !app_nil_r.
    - destruct (Byte.eqb (nth j r x00) x01); rewrite IH; cbn [map];
        rewrite <- !app_assoc; reflexivity. }
  intros w0. apply Hloop.
Qed.

Lemma onesided_plaintext (vec_m : list block) (r : list uint8_t) (N i : nat) :
  N mod 128 = 0 -> i < N -> nth i r x00 = x01 ->
  Block.xor (onesided_C vec_m r N i) (Hash.BlocksToBlock (T_row N i))
  = nth i vec_m 0%N.
Proof.
  intros HN Hi Hr. destruct (multiple_of_128 N HN) as [n ->].
  unfold onesided_C. rewrite (@Q_row_1_xor _ r _ _ Hi Hr). apply xor_cancel.
Qed.

End Runs.

(** ** Files *)

Lemma content_write_file (fs : filesystem) (name : string) (bytes : list uint8_t) :
  content (write_file fs name bytes) name = Some bytes.
Proof. unfold write_file. cbn [content]. now rewrite String.eqb_refl. Qed.

(** * The claims *)

Section Claims.

Context {basePP : Type} {prg : PRG.Oracle} {hash : Hash.Oracle}.
Context {npot_io : NPOT.Serializer basePP}.

Local Notation "'abort'" :=
  (Exit 1 "row or colulumn parameters is wrong"%string) (only parsing).

(** C4 (as amended). [CheckParameters] ends the program with exit code 1
    and the message "row or colulumn parameters is wrong" exactly when
    [ROW_NUM] or [COLUMN_NUM] is not a multiple of 128, and returns
    normally otherwise; it does not compare [COLUMN_NUM] with 128. *)
Theorem CheckParameters_spec (ROW_NUM COLUMN_NUM : nat) :
  ((ROW_NUM mod 128 <> 0 \/ COLUMN_NUM mod 128 <> 0) ->
   CheckParameters ROW_NUM COLUMN_NUM (Ret tt)
   = @Exit basePP unit 1 "row or colulumn parameters is wrong"%string)
  /\ ((ROW_NUM mod 128 = 0 /\ COLUMN_NUM mod 128 = 0) ->
      CheckParameters ROW_NUM COLUMN_NUM (Ret tt) = @Ret basePP unit tt).
Proof.
  unfold CheckParameters. split.
  - intros [H|H].
    + destruct (Nat.eqb_spec (ROW_NUM mod 128) 0); [contradiction|reflexivity].
    + destruct (Nat.eqb_spec (COLUMN_NUM mod 128) 0); [contradiction|].
      now rewrite orb_true_r.
  - intros [-> ->]. reflexivity.
Qed.

(** C5. When [EXTEND_LEN] is not a multiple of 128, each of [Send],
    [Receive], [OnesidedSend] and [OnesidedReceive] is the process that
    exits at once: nothing is sent or received and the base OT is not
    started, whatever the peer does. *)
Theorem entry_check_before_io (pp : @PP basePP) (vec_m0 vec_m1 vec_m : list block)
        (r : list uint8_t) (EXTEND_LEN : nat) :
  EXTEND_LEN mod 128 <> 0 ->
  Send pp vec_m0 vec_m1 EXTEND_LEN = abort
  /\ Receive pp r EXTEND_LEN = abort
  /\ OnesidedSend pp vec_m EXTEND_LEN = abort
  /\ OnesidedReceive pp r EXTEND_LEN = abort
  /\ (forall (B : Type) (peer : proc basePP B),
        run (Send pp vec_m0 vec_m1 EXTEND_LEN) peer []
        = Aborted Sender 1 "row or colulumn parameters is wrong"%string []
        /\ run (OnesidedSend pp vec_m EXTEND_LEN) peer []
           = Aborted Sender 1 "row or colulumn parameters is wrong"%string [])
  /\ (forall (A : Type) (peer : proc basePP A),
        (exists who code msg,
            run peer (Receive pp r EXTEND_LEN) [] = Aborted who code msg [])
        /\ (exists who code msg,
               run peer (OnesidedReceive pp r EXTEND_LEN) []
               = Aborted who code msg [])).
Proof.
  intros H.
  assert (HS : forall R k,
             @Send_Phase1 basePP prg R pp EXTEND_LEN k = abort).
  { intros R k. unfold Send_Phase1, CheckParameters.
    destruct (Nat.eqb_spec (EXTEND_LEN mod 128) 0); [contradiction|reflexivity]. }
  assert (HR : forall R k,
             @Receive_Phase1 basePP prg R pp r EXTEND_LEN k = abort).
  { intros R k. unfold Receive_Phase1, CheckParameters.
    destruct (Nat.eqb_spec (EXTEND_LEN mod 128) 0); [contradiction|reflexivity]. }
  assert (HP : forall A B (peer : proc basePP A),
             exists who code msg,
               run peer (@Exit basePP B 1 "row or colulumn parameters is wrong"%string) []
               = Aborted who code msg []).
  { intros A B peer. destruct peer; cbn [run]; eauto. }
  unfold Send, Receive, OnesidedSend, OnesidedReceive. rewrite !HS, !HR.
  repeat split; auto.
Qed.

(** C6. Saving [pp] to a file that can be opened and fetching that file
    gives back [pp], whatever the target held before; the file holds the
    serialized base-OT parameters followed by the single byte
    [malicious]; and the two stream operators are inverses of each other
    on every stream. *)
Theorem SavePP_FetchPP_roundtrip (pp target : @PP basePP) (pp_filename : string)
        (fs : filesystem) :
  can_write fs pp_filename = true ->
  exists fs',
    SavePP pp pp_filename fs = Returns fs'
    /\ content fs' pp_filename
       = Some (NPOT.write (baseOT pp) ++ [malicious pp])
    /\ FetchPP target pp_filename fs' = Returns pp
    /\ (forall rest,
           operator_rshift (Some (operator_lshift [] pp ++ rest)) target
           = (Some rest, pp))
    /\ (forall bytes rest pp1,
           operator_rshift (Some bytes) target = (Some rest, pp1) ->
           bytes = operator_lshift [] pp1 ++ rest).
Proof.
  intros Hw.
  assert (Hrw : forall rest,
             operator_rshift (Some (operator_lshift [] pp ++ rest)) target
             = (Some rest, pp)).
  { intros rest. unfold operator_rshift, operator_lshift,
      Serialization.write_uint8, Serialization.read_uint8.
    cbn [app]. rewrite <- app_assoc, NPOT.read_write. cbn [app].
    destruct pp; reflexivity. }
  exists (write_file fs pp_filename (operator_lshift [] pp)).
  unfold SavePP, FetchPP. rewrite Hw. cbn [negb].
  rewrite !content_write_file.
  split; [reflexivity|]. split; [reflexivity|].
  split; [|split].
  - specialize (Hrw []). rewrite app_nil_r in Hrw. now rewrite Hrw.
  - exact Hrw.
  - intros bytes rest pp1. unfold operator_rshift, operator_lshift,
      Serialization.write_uint8, Serialization.read_uint8.
    destruct (NPOT.read bytes) as [[base rest0]|] eqn:E; [|discriminate].
    apply NPOT.write_read in E. destruct rest0 as [|b rest1]; [discriminate|].
    intros H. inversion H; subst. cbn [baseOT malicious app].
    now rewrite <- app_assoc.
Qed.

(** C8. The four entry points read [pp.baseOT] only: for two parameter
    values with the same base-OT parameters they are the same processes,
    hence give the same outcome (results and wire) against every peer. *)
Theorem malicious_flag_unused (pp pp' : @PP basePP) (vec_m0 vec_m1 vec_m : list block)
        (r : list uint8_t) (EXTEND_LEN : nat) :
  baseOT pp = baseOT pp' ->
  Send pp vec_m0 vec_m1 EXTEND_LEN = Send pp' vec_m0 vec_m1 EXTEND_LEN
  /\ Receive pp r EXTEND_LEN = Receive pp' r EXTEND_LEN
  /\ OnesidedSend pp vec_m EXTEND_LEN = OnesidedSend pp' vec_m EXTEND_LEN
  /\ OnesidedReceive pp r EXTEND_LEN = OnesidedReceive pp' r EXTEND_LEN
  /\ (forall (B : Type) (peer : proc basePP B) wire,
        run (Send pp vec_m0 vec_m1 EXTEND_LEN) peer wire
        = run (Send pp' vec_m0 vec_m1 EXTEND_LEN) peer wire
        /\ run (OnesidedSend pp vec_m EXTEND_LEN) peer wire
           = run (OnesidedSend pp' vec_m EXTEND_LEN) peer wire)
  /\ (forall (A : Type) (peer : proc basePP A) wire,
        run peer (Receive pp r EXTEND_LEN) wire
        = run peer (Receive pp' r EXTEND_LEN) wire
        /\ run peer (OnesidedReceive pp r EXTEND_LEN) wire
           = run peer (OnesidedReceive pp' r EXTEND_LEN) wire).
Proof.
  intros H.
  assert (HS : Send pp vec_m0 vec_m1 EXTEND_LEN = Send pp' vec_m0 vec_m1 EXTEND_LEN)
    by (unfold Send, Send_Phase1; rewrite H; reflexivity).
  assert (HR : Receive pp r EXTEND_LEN = Receive pp' r EXTEND_LEN)
    by (unfold Receive, Receive_Phase1; rewrite H; reflexivity).
  assert (HOS : OnesidedSend pp vec_m EXTEND_LEN = OnesidedSend pp' vec_m EXTEND_LEN)
    by (unfold OnesidedSend, Send_Phase1; rewrite H; reflexivity).
  assert (HOR : OnesidedReceive pp r EXTEND_LEN = OnesidedReceive pp' r EXTEND_LEN)
    by (unfold OnesidedReceive, Receive_Phase1; rewrite H; reflexivity).
  rewrite HS, HR, HOS, HOR. repeat split; reflexivity.
Qed.

(** C10. [Setup] returns parameters whose [malicious] field is 0,
    whatever the base-OT setup returns. *)
Theorem Setup_malicious (NPOT_Setup : basePP) :
  malicious (Setup NPOT_Setup) = x00 /\ baseOT (Setup NPOT_Setup) = NPOT_Setup.
Proof. split; reflexivity. Qed.

End Claims.

Lemma StronglySorted_filter_seq (p : nat -> bool) (n a : nat) :
  StronglySorted lt (filter p (seq a n)).
Proof.
  revert a. induction n as [|n IH]; intros a; cbn [seq filter].
  - constructor.
  - destruct (p a); [|apply IH]. constructor; [apply IH|].
    apply Forall_forall. intros x Hx. apply filter_In in Hx.
    destruct Hx as [Hx _]. apply in_seq in Hx. lia.
Qed.

Lemma and_scale_0 (S : list block) (b : uint8_t) (T : list block) :
  b = x00 -> length T = length S -> Block.XOR T (and_scale S b) = T.
Proof.
  intros -> . unfold and_scale. cbn [sparse_bit Byte.eqb negb].
  change (sparse_bit x00) with false. cbv iota.
  revert S. induction T as [|t T IH]; intros [|s S] H; cbn [length] in H;
    try discriminate; cbn [map Block.XOR]; [reflexivity|].
  unfold Block.xor at 1. rewrite N.lxor_0_r. f_equal. apply IH. lia.
Qed.

Lemma and_scale_1 (S : list block) (b : uint8_t) :
  b = x01 -> and_scale S b = S.
Proof.
  intros ->. unfold and_scale. change (sparse_bit x01) with true. cbv iota.
  apply map_id.
Qed.

Section ProtocolClaims.

Context {basePP : Type} {prg : PRG.Oracle} {hash : Hash.Oracle}.

(** C1. In a run of [Send] with [Receive] on [N] messages, [N] a
    multiple of 128, the receiver returns [N] blocks, the [i]-th being
    [vec_m0[i]] when its selection bit [r_i] is 0 and [vec_m1[i]] when it
    is 1. *)
Theorem Send_Receive_correct (pp : @PP basePP) (vec_m0 vec_m1 : list block)
        (r : list uint8_t) (N : nat) :
  N mod 128 = 0 ->
  length vec_m0 = N -> length vec_m1 = N ->
  length r = N -> Forall is_sparse_bit r ->
  exists vec_result wire,
    run (Send pp vec_m0 vec_m1 N) (Receive pp r N) []
    = Finished tt vec_result wire
    /\ length vec_result = N
    /\ forall i, i < N ->
         (nth i r x00 = x00 -> nth i vec_result 0%N = nth i vec_m0 0%N)
         /\ (nth i r x00 = x01 -> nth i vec_result 0%N = nth i vec_m1 0%N).
Proof.
  intros HN _ _ Hr Hbits.
  exists (unmask (outer_C0 vec_m0 r N) (outer_C1 vec_m1 r N) r N),
         (standard_wire vec_m0 vec_m1 r N).
  split; [now apply Send_Receive_run|].
  split; [apply length_unmask|].
  intros i Hi.
  assert (Hb : is_sparse_bit (nth i r x00)).
  { rewrite Forall_forall in Hbits. apply Hbits, nth_In. lia. }
  rewrite nth_unmask by assumption.
  split; intros E; rewrite E; reflexivity.
Qed.

(** C2. In a run of [OnesidedSend] with [OnesidedReceive], the receiver
    returns as many blocks as [r] has ones, the [k]-th being [vec_m[i_k]]
    for [i_0 < i_1 < ...] the indices at which [r] is 1. *)
Theorem OnesidedSend_OnesidedReceive_correct (pp : @PP basePP) (vec_m : list block)
        (r : list uint8_t) (N : nat) :
  N mod 128 = 0 ->
  length vec_m = N -> length r = N -> Forall is_sparse_bit r ->
  exists vec_result wire,
    run (OnesidedSend pp vec_m N) (OnesidedReceive pp r N) []
    = Finished tt vec_result wire
    /\ length vec_result = hamming_weight r
    /\ vec_result = map (fun i => nth i vec_m 0%N) (ones r N)
    /\ (forall k, k < length vec_result ->
          nth k vec_result 0%N = nth (nth k (ones r N) 0) vec_m 0%N)
    /\ (forall i, In i (ones r N) <-> i < N /\ nth i r x00 = x01)
    /\ StronglySorted lt (ones r N).
Proof.
  intros HN _ Hr _.
  assert (E : map (fun i => Block.xor (onesided_C vec_m r N i)
                              (Hash.BlocksToBlock (T_row N i))) (ones r N)
              = map (fun i => nth i vec_m 0%N) (ones r N)).
  { apply map_ext_in. intros i Hi. apply In_ones in Hi.
    destruct Hi as [Hi Hone]. now apply onesided_plaintext. }
  exists (map (fun i => nth i vec_m 0%N) (ones r N)), (onesided_wire vec_m r N).
  split; [rewrite <- E; now apply OnesidedSend_OnesidedReceive_run|].
  split; [rewrite length_map, <- Hr; apply hamming_weight_ones|].
  split; [reflexivity|].
  split; [|split; [apply In_ones|apply StronglySorted_filter_seq]].
  intros k Hk. rewrite length_map in Hk.
  rewrite (nth_indep _ 0%N (nth 0 vec_m 0%N)) by now rewrite length_map.
  now rewrite (map_nth (fun i => nth i vec_m 0%N)).
Qed.

(** C3. After the column phase of a run, row [i] of the sender's matrix
    [Q] is row [i] of the receiver's matrix [T] xor [s] scaled by [r_i],
    [s] being the sender's base-OT selection block; so the hash of the
    [Q] row is the hash of the [T] row when [r_i = 0], and the hash of
    the [Q] row xor [S] is the hash of the [T] row when [r_i = 1]. *)
Theorem matrix_correlation (pp : @PP basePP) (r : list uint8_t) (N : nat) :
  N mod 128 = 0 -> length r = N -> Forall is_sparse_bit r ->
  exists s Q T wire,
    run (Send_Phase1 pp N (fun s Q => Ret (s, Q)))
        (Receive_Phase1 pp r N (fun T => Ret T)) []
    = Finished (s, Q) T wire
    /\ forall i, i < N ->
         let S := Block.FromSparseBits s BASE_LEN (BASE_LEN / 128) in
         let Qrow := row_block (empBitMatrixTranspose Q N BASE_LEN) i in
         let Trow := row_block (empBitMatrixTranspose T N BASE_LEN) i in
         Qrow = Block.XOR Trow (and_scale S (nth i r x00))
         /\ (nth i r x00 = x00 ->
             Hash.BlocksToBlock Qrow = Hash.BlocksToBlock Trow)
         /\ (nth i r x00 = x01 ->
             Hash.BlocksToBlock (Block.XOR Qrow S) = Hash.BlocksToBlock Trow).
Proof.
  intros HN Hr Hbits.
  exists sender_bits, (matrix_Q r N), (matrix_T N), ([] ++ phase1_wire r N).
  split; [now rewrite phase1_run|].
  intros i Hi. cbv zeta. fold sender_block. fold (Q_row r N i). fold (T_row N i).
  destruct (multiple_of_128 N HN) as [n ->].
  assert (Hb : is_sparse_bit (nth i r x00)).
  { rewrite Forall_forall in Hbits. apply Hbits, nth_In. lia. }
  assert (HlenT : length (T_row (128 * n) i) = length sender_block).
  { rewrite (@T_row_bits _ _ _ Hi), sender_block_bits. reflexivity. }
  split; [|split].
  - destruct Hb as [E|E].
    + rewrite and_scale_0 by assumption. now apply Q_row_0.
    + rewrite and_scale_1 by assumption. now apply Q_row_1.
  - intros E. now rewrite (@Q_row_0 _ r _ _ Hi E).
  - intros E. now rewrite (@Q_row_1_xor _ r _ _ Hi E).
Qed.

End ProtocolClaims.

Section WireClaims.

Context {basePP : Type} {prg : PRG.Oracle} {hash : Hash.Oracle}.

(** C7. The wire of a run is, in this order: the base OT; for
    [j = 0 .. 127] the two ciphertexts of column [j], from the receiver,
    [N/128] blocks each; then, in the standard variant, [outer_C0] and
    [outer_C1] from the sender, [N] blocks each, and in the one-sided
    variant [N] single blocks from the sender, one per row in row order. *)
Theorem wire_order (pp : @PP basePP) (vec_m0 vec_m1 vec_m : list block)
        (r : list uint8_t) (N : nat) :
  N mod 128 = 0 ->
  (exists vec_result,
      run (Send pp vec_m0 vec_m1 N) (Receive pp r N) []
      = Finished tt vec_result
          (BaseOT BASE_LEN
           :: flat_map (fun j => [Blocks Receiver (inner_C0 N j);
                                  Blocks Receiver (inner_C1 r N j)])
                       (seq 0 128)
           ++ [Blocks Sender (outer_C0 vec_m0 r N);
               Blocks Sender (outer_C1 vec_m1 r N)]))
  /\ (exists vec_result,
         run (OnesidedSend pp vec_m N) (OnesidedReceive pp r N) []
         = Finished tt vec_result
             (BaseOT BASE_LEN
              :: flat_map (fun j => [Blocks Receiver (inner_C0 N j);
                                     Blocks Receiver (inner_C1 r N j)])
                          (seq 0 128)
              ++ map (fun i => OneBlock Sender (onesided_C vec_m r N i))
                     (seq 0 N)))
  /\ (forall j, length (inner_C0 N j) = N / 128
                /\ length (inner_C1 r N j) = N / 128)
  /\ length (outer_C0 vec_m0 r N) = N
  /\ length (outer_C1 vec_m1 r N) = N.
Proof.
  intros HN. split; [|split; [|split; [|split]]].
  - eexists. rewrite Send_Receive_run by exact HN. reflexivity.
  - eexists. rewrite OnesidedSend_OnesidedReceive_run by exact HN. reflexivity.
  - intros j. split; [apply length_inner_C0|apply length_inner_C1].
  - apply length_outer_C0.
  - apply length_outer_C1.
Qed.

(** C9. [EXTEND_LEN = 0] passes the entry check, and the run goes
    through the base OT and the 128 column rounds with empty vectors;
    [Receive] and [OnesidedReceive] return the empty vector. *)
Theorem zero_length_accepted (pp : @PP basePP) (vec_m0 vec_m1 vec_m : list block)
        (r : list uint8_t) :
  CheckParameters 0 BASE_LEN (Ret tt) = @Ret basePP unit tt
  /\ run (Send pp vec_m0 vec_m1 0) (Receive pp r 0) []
     = Finished tt []
         (BaseOT BASE_LEN
          :: flat_map (fun _ => [Blocks Receiver []; Blocks Receiver []])
                      (seq 0 128)
          ++ [Blocks Sender []; Blocks Sender []])
  /\ run (OnesidedSend pp vec_m 0) (OnesidedReceive pp r 0) []
     = Finished tt []
         (BaseOT BASE_LEN
          :: flat_map (fun _ => [Blocks Receiver []; Blocks Receiver []])
                      (seq 0 128)).
Proof.
  assert (Hcol : forall l,
             flat_map (column_round r 0) l
             = flat_map (fun _ => [Blocks Receiver []; Blocks Receiver []]) l).
  { intros l. apply flat_map_ext. intros j. reflexivity. }
  split; [reflexivity|]. split.
  - rewrite Send_Receive_run by reflexivity.
    unfold standard_wire, phase1_wire. rewrite Hcol. reflexivity.
  - rewrite OnesidedSend_OnesidedReceive_run by reflexivity.
    unfold onesided_wire, phase1_wire. rewrite Hcol.
    cbn [seq map ones filter]. now rewrite app_nil_r.
Qed.

End WireClaims.

(** * The statements on the concrete instance *)

Lemma example_bits_sparse : Forall is_sparse_bit Example.vec_selection_bit.
Proof.
  apply Forall_forall. intros b Hb. apply in_map_iff in Hb.
  destruct Hb as (i & <- & _). destruct (Nat.even _); [left|right]; reflexivity.
Defined.

(** C4: a [COLUMN_NUM] of 256 differs from 128 and passes the check. *)
Lemma CheckParameters_accepts_256 :
  256 <> 128
  /\ 256 mod 128 = 0
  /\ CheckParameters 128 256 (Ret tt) = @Ret uint8_t unit tt.
Proof. split; [discriminate|split; reflexivity]. Qed.

Lemma Send_Receive_correct_witness :
  exists vec_result wire,
    run (@Send _ Example.prg Example.hash Example.pp Example.vec_m0 Example.vec_m1 128)
        (@Receive _ Example.prg Example.hash Example.pp Example.vec_selection_bit 128) []
    = Finished tt vec_result wire
    /\ length vec_result = 128
    /\ forall i, i < 128 ->
         (nth i Example.vec_selection_bit x00 = x00 ->
          nth i vec_result 0%N = nth i Example.vec_m0 0%N)
         /\ (nth i Example.vec_selection_bit x00 = x01 ->
             nth i vec_result 0%N = nth i Example.vec_m1 0%N).
Proof.
  apply (@Send_Receive_correct _ Example.prg Example.hash Example.pp
           Example.vec_m0 Example.vec_m1 Example.vec_selection_bit 128);
    [reflexivity|reflexivity|reflexivity|reflexivity|exact example_bits_sparse].
Defined.

Lemma OnesidedSend_OnesidedReceive_correct_witness :
  exists vec_result wire,
    run (@OnesidedSend _ Example.prg Example.hash Example.pp Example.vec_m1 128)
        (@OnesidedReceive _ Example.prg Example.hash Example.pp
           Example.vec_selection_bit 128) []
    = Finished tt vec_result wire
    /\ length vec_result = hamming_weight Example.vec_selection_bit
    /\ vec_result
       = map (fun i => nth i Example.vec_m1 0%N) (ones Example.vec_selection_bit 128)
    /\ (forall k, k < length vec_result ->
          nth k vec_result 0%N
          = nth (nth k (ones Example.vec_selection_bit 128) 0) Example.vec_m1 0%N)
    /\ (forall i, In i (ones Example.vec_selection_bit 128)
                  <-> i < 128 /\ nth i Example.vec_selection_bit x00 = x01)
    /\ StronglySorted lt (ones Example.vec_selection_bit 128).
Proof.
  apply (@OnesidedSend_OnesidedReceive_correct _ Example.prg Example.hash Example.pp
           Example.vec_m1 Example.vec_selection_bit 128);
    [reflexivity|reflexivity|reflexivity|exact example_bits_sparse].
Defined.

Lemma matrix_correlation_witness :
  exists s Q T wire,
    run (@Send_Phase1 _ Example.prg _ Example.pp 128 (fun s Q => Ret (s, Q)))
        (@Receive_Phase1 _ Example.prg _ Example.pp Example.vec_selection_bit 128
           (fun T => Ret T)) []
    = Finished (s, Q) T wire
    /\ forall i, i < 128 ->
         let S := Block.FromSparseBits s BASE_LEN (BASE_LEN / 128) in
         let Qrow := row_block (empBitMatrixTranspose Q 128 BASE_LEN) i in
         let Trow := row_block (empBitMatrixTranspose T 128 BASE_LEN) i in
         Qrow = Block.XOR Trow (and_scale S (nth i Example.vec_selection_bit x00))
         /\ (nth i Example.vec_selection_bit x00 = x00 ->
             @Hash.BlocksToBlock Example.hash Qrow
             = @Hash.BlocksToBlock Example.hash Trow)
         /\ (nth i Example.vec_selection_bit x00 = x01 ->
             @Hash.BlocksToBlock Example.hash (Block.XOR Qrow S)
             = @Hash.BlocksToBlock Example.hash Trow).
Proof.
  apply (@matrix_correlation _ Example.prg Example.hash Example.pp
           Example.vec_selection_bit 128);
    [reflexivity|reflexivity|exact example_bits_sparse].
Defined.

Lemma entry_check_before_io_witness :
  100 mod 128 <> 0
  /\ @Send _ Example.prg Example.hash Example.pp Example.vec_m0 Example.vec_m1 100
     = Exit 1 "row or colulumn parameters is wrong"%string
  /\ @Receive _ Example.prg Example.hash Example.pp Example.vec_selection_bit 100
     = Exit 1 "row or colulumn parameters is wrong"%string.
Proof.
  assert (H : 100 mod 128 <> 0) by (intros E; discriminate E).
  split; [exact H|].
  destruct (@entry_check_before_io _ Example.prg Example.hash Example.pp
              Example.vec_m0 Example.vec_m1 Example.vec_m0
              Example.vec_selection_bit 100 H) as (HS & HR & _).
  split; assumption.
Defined.

Lemma SavePP_FetchPP_roundtrip_witness :
  exists fs',
    @SavePP _ Example.npot_io Example.pp "iknpote.pp"%string Example.fs = Returns fs'
    /\ @FetchPP _ Example.npot_io
         {| malicious := xff; baseOT := x00 |} "iknpote.pp"%string fs'
       = Returns Example.pp.
Proof.
  destruct (@SavePP_FetchPP_roundtrip _ Example.npot_io Example.pp
              {| malicious := xff; baseOT := x00 |} "iknpote.pp"%string Example.fs
              eq_refl) as (fs' & Hsave & _ & Hfetch & _).
  exists fs'. split; assumption.
Defined.

Lemma wire_order_witness :
  exists vec_result,
    run (@Send _ Example.prg Example.hash Example.pp Example.vec_m0 Example.vec_m1 128)
        (@Receive _ Example.prg Example.hash Example.pp Example.vec_selection_bit 128) []
    = Finished tt vec_result
        (BaseOT BASE_LEN
         :: flat_map (fun j =>
              [Blocks Receiver (@inner_C0 Example.prg 128 j);
               Blocks Receiver (@inner_C1 Example.prg Example.vec_selection_bit 128 j)])
              (seq 0 128)
         ++ [Blocks Sender
               (@outer_C0 Example.prg Example.hash Example.vec_m0
                  Example.vec_selection_bit 128);
             Blocks Sender
               (@outer_C1 Example.prg Example.hash Example.vec_m1
                  Example.vec_selection_bit 128)]).
Proof.
  exact (proj1 (@wire_order _ Example.prg Example.hash Example.pp Example.vec_m0
                  Example.vec_m1 Example.vec_m1 Example.vec_selection_bit 128
                  eq_refl)).
Defined.

Lemma malicious_flag_unused_witness :
  @Send _ Example.prg Example.hash Example.pp Example.vec_m0 Example.vec_m1 128
  = @Send _ Example.prg Example.hash {| malicious := x01; baseOT := x2a |}
      Example.vec_m0 Example.vec_m1 128.
Proof.
  exact (proj1 (@malicious_flag_unused _ Example.prg Example.hash Example.pp
                  {| malicious := x01; baseOT := x2a |} Example.vec_m0
                  Example.vec_m1 Example.vec_m1 Example.vec_selection_bit 128
                  eq_refl)).
Defined.

(** * Further properties of the code *)

(** ** Traffic *)

Lemma traffic_app (who : party) (w1 w2 : list event) :
  traffic who (w1 ++ w2) = traffic who w1 + traffic who w2.
Proof. unfold traffic. now rewrite map_app, list_sum_app. Qed.

Lemma traffic_cons (who : party) (e : event) (w : list event) :
  traffic who (e :: w) = blocks_of who e + traffic who w.
Proof. reflexivity. Qed.

Lemma traffic_flat_map (who : party) (f : nat -> list event) (m : nat) (l : list nat) :
  (forall j, traffic who (f j) = m) ->
  traffic who (flat_map f l) = length l * m.
Proof.
  intros H. induction l as [|a l IH]; cbn [flat_map length]; [reflexivity|].
  rewrite traffic_app, H, IH. lia.
Qed.

Lemma traffic_map_OneBlock (who from : party) (f : nat -> block) (l : list nat) :
  traffic who (map (fun i => OneBlock from (f i)) l)
  = if party_eqb from who then length l else 0.
Proof.
  induction l as [|a l IH]; cbn [map length].
  - now destruct (party_eqb from who).
  - rewrite traffic_cons, IH. cbn [blocks_of]. now destruct (party_eqb from who).
Qed.

Section Extras.

Context {basePP : Type} {prg : PRG.Oracle} {hash : Hash.Oracle}.
Context {npot_io : NPOT.Serializer basePP}.

Lemma traffic_phase1 (who : party) (r : list uint8_t) (N : nat) :
  traffic who (phase1_wire r N)
  = if party_eqb Receiver who then 128 * (2 * (N / 128)) else 0.
Proof.
  unfold phase1_wire, BASE_LEN.
  change (BaseOT 128 :: ?l) with ([BaseOT 128] ++ l).
  rewrite traffic_app.
  rewrite (@traffic_flat_map who (column_round r N)
             (if party_eqb Receiver who then 2 * (N / 128) else 0)).
  - rewrite length_seq. rewrite traffic_cons. cbn [blocks_of].
    change (traffic who []) with 0.
    destruct (party_eqb Receiver who); lia.
  - intros j. unfold column_round. rewrite !traffic_cons. cbn [blocks_of].
    change (traffic who []) with 0.
    rewrite length_inner_C0, length_inner_C1.
    destruct (party_eqb Receiver who); lia.
Qed.

(** The run moves the number of bytes that the code reports: the receiver
    sends [COLUMN_NUM*ROW_NUM/128*16*2] bytes in the column phase, and the
    sender then sends [ROW_NUM*16*2] bytes in the standard variant and
    [ROW_NUM*16] bytes in the one-sided variant, whatever the selection
    bits are. *)
Theorem traffic_as_reported (pp : @PP basePP) (vec_m0 vec_m1 vec_m : list block)
        (r : list uint8_t) (N : nat) :
  N mod 128 = 0 ->
  let ROW_NUM := N in
  let COLUMN_NUM := BASE_LEN in
  (exists vec_result wire,
      run (Send pp vec_m0 vec_m1 N) (Receive pp r N) []
      = Finished tt vec_result wire
      /\ 16 * traffic Receiver wire = COLUMN_NUM * ROW_NUM / 128 * 16 * 2
      /\ 16 * traffic Sender wire = ROW_NUM * 16 * 2
      /\ length wire = 1 + 2 * COLUMN_NUM + 2)
  /\ (exists vec_result wire,
         run (OnesidedSend pp vec_m N) (OnesidedReceive pp r N) []
         = Finished tt vec_result wire
         /\ 16 * traffic Receiver wire = COLUMN_NUM * ROW_NUM / 128 * 16 * 2
         /\ 16 * traffic Sender wire = ROW_NUM * 16
         /\ length wire = 1 + 2 * COLUMN_NUM + ROW_NUM).
Proof.
  intros HN ROW_NUM COLUMN_NUM. subst ROW_NUM COLUMN_NUM. unfold BASE_LEN.
  assert (Hlen : length (phase1_wire r N) = 257).
  { unfold phase1_wire, BASE_LEN. cbn [length].
    rewrite (flat_map_constant_length (column_round r N) (seq 0 128) (c := 2))
      by (intros j _; reflexivity).
    now rewrite length_seq. }
  split.
  - exists (unmask (outer_C0 vec_m0 r N) (outer_C1 vec_m1 r N) r N),
           (standard_wire vec_m0 vec_m1 r N).
    split; [now apply Send_Receive_run|].
    unfold standard_wire. rewrite !traffic_app, !traffic_phase1, length_app, Hlen.
    rewrite !traffic_cons. cbn [blocks_of party_eqb length].
    change (traffic Receiver []) with 0. change (traffic Sender []) with 0.
    rewrite length_outer_C0, length_outer_C1.
    split; [|split]; lia.
  - exists (map (fun i => Block.xor (onesided_C vec_m r N i)
                           (Hash.BlocksToBlock (T_row N i))) (ones r N)),
           (onesided_wire vec_m r N).
    split; [now apply OnesidedSend_OnesidedReceive_run|].
    unfold onesided_wire.
    rewrite !traffic_app, !traffic_phase1, !traffic_map_OneBlock, length_app,
      length_map, length_seq, Hlen.
    cbn [party_eqb]. split; [|split]; lia.
Qed.

(** ** The two variants compared *)

(** The blocks that [OnesidedSend] sends one by one are the entries of the
    vector [outer_C1] that [Send] sends for the same messages, and what
    [OnesidedReceive] returns is what [Receive] returns, restricted to the
    rows whose selection bit is 1. *)
Theorem onesided_is_selected_half (pp : @PP basePP) (vec_m0 vec_m : list block)
        (r : list uint8_t) (N : nat) :
  N mod 128 = 0 ->
  exists onesided_result standard_result outer0 outer1,
    run (OnesidedSend pp vec_m N) (OnesidedReceive pp r N) []
    = Finished tt onesided_result
        (phase1_wire r N
         ++ map (fun i => OneBlock Sender (nth i outer1 0%N)) (seq 0 N))
    /\ run (Send pp vec_m0 vec_m N) (Receive pp r N) []
       = Finished tt standard_result
           (phase1_wire r N ++ [Blocks Sender outer0; Blocks Sender outer1])
    /\ onesided_result = map (fun i => nth i standard_result 0%N) (ones r N).
Proof.
  intros HN.
  exists (map (fun i => Block.xor (onesided_C vec_m r N i)
                          (Hash.BlocksToBlock (T_row N i))) (ones r N)),
         (unmask (outer_C0 vec_m0 r N) (outer_C1 vec_m r N) r N),
         (outer_C0 vec_m0 r N), (outer_C1 vec_m r N).
  assert (HC : forall i, i < N ->
             nth i (outer_C1 vec_m r N) 0%N = onesided_C vec_m r N i).
  { intros i Hi. unfold outer_C1. now rewrite nth_map_seq. }
  split; [|split].
  - rewrite OnesidedSend_OnesidedReceive_run by exact HN.
    unfold onesided_wire. f_equal. f_equal.
    apply map_ext_in. intros i Hi. apply in_seq in Hi. now rewrite HC by lia.
  - now apply Send_Receive_run.
  - apply map_ext_in. intros i Hi. apply In_ones in Hi. destruct Hi as [Hi E].
    unfold unmask. rewrite nth_map_seq by exact Hi. rewrite E.
    change (Byte.eqb x01 x00) with false. cbv iota. now rewrite HC.
Qed.

(** ** The base OT call *)

(** With a legal [EXTEND_LEN], the first blocking operation of [Send] and
    of [OnesidedSend] is [NPOT::Receive] with [BASE_LEN] selection bits,
    each 0 or 1, and the first one of [Receive] and of [OnesidedReceive] is
    [NPOT::Send] with two vectors of [BASE_LEN] keys: the sender of the
    extension is the receiver of the base OT, and the sizes passed agree
    with the length argument. *)
Theorem base_OT_roles (pp : @PP basePP) (vec_m0 vec_m1 vec_m : list block)
        (r : list uint8_t) (N : nat) :
  N mod 128 = 0 ->
  (exists bits k k',
      Send pp vec_m0 vec_m1 N = NPOT_Receive (baseOT pp) bits BASE_LEN k
      /\ OnesidedSend pp vec_m N = NPOT_Receive (baseOT pp) bits BASE_LEN k'
      /\ length bits = BASE_LEN /\ Forall is_sparse_bit bits)
  /\ (exists K0 K1 k k',
         Receive pp r N = NPOT_Send (baseOT pp) K0 K1 BASE_LEN k
         /\ OnesidedReceive pp r N = NPOT_Send (baseOT pp) K0 K1 BASE_LEN k'
         /\ length K0 = BASE_LEN /\ length K1 = BASE_LEN).
Proof.
  intros HN. split.
  - unfold Send, OnesidedSend, Send_Phase1, CheckParameters.
    rewrite HN. change (BASE_LEN mod 128) with 0. cbn [Nat.eqb negb orb].
    pose proof (PRG.GenRandomBits_length (PRG.SetSeed None 0) BASE_LEN) as Hl.
    pose proof (PRG.GenRandomBits_sparse (PRG.SetSeed None 0) BASE_LEN) as Hs.
    destruct (PRG.GenRandomBits (PRG.SetSeed None 0) BASE_LEN) as [bits seed].
    cbn [fst] in Hl, Hs. exists bits. do 2 eexists.
    split; [reflexivity|]. split; [reflexivity|]. split; assumption.
  - unfold Receive, OnesidedReceive, Receive_Phase1, CheckParameters.
    rewrite HN. change (BASE_LEN mod 128) with 0. cbn [Nat.eqb negb orb].
    destruct (PRG.GenRandomBitMatrix (PRG.SetSeed None 0) N BASE_LEN) as [T seed1].
    pose proof (PRG.GenRandomBlocks_length seed1 BASE_LEN) as H0.
    destruct (PRG.GenRandomBlocks seed1 BASE_LEN) as [K0 seed2].
    pose proof (PRG.GenRandomBlocks_length seed2 BASE_LEN) as H1.
    destruct (PRG.GenRandomBlocks seed2 BASE_LEN) as [K1 seed3].
    cbn [fst] in H0, H1. exists K0, K1. do 2 eexists.
    split; [reflexivity|]. split; [reflexivity|]. split; assumption.
Qed.

(** ** Persistence *)

Lemma operator_rshift_lshift (pp target : @PP basePP) (rest : list uint8_t) :
  operator_rshift (Some (operator_lshift [] pp ++ rest)) target = (Some rest, pp).
Proof.
  unfold operator_rshift, operator_lshift,
    Serialization.write_uint8, Serialization.read_uint8.
  cbn [app]. rewrite <- app_assoc, NPOT.read_write. cbn [app].
  destruct pp; reflexivity.
Qed.

(** [SavePP] fails exactly when the file cannot be opened for writing and
    [FetchPP] exactly when it cannot be opened for reading, both with exit
    code 1 and the message "<file name> open error"; once the file is
    open, [FetchPP] returns whatever the file holds. *)
Theorem persistence_errors (pp target : @PP basePP) (pp_filename : string)
        (fs : filesystem) :
  (SavePP pp pp_filename fs = Exits 1 (pp_filename ++ " open error")%string
   <-> can_write fs pp_filename = false)
  /\ (FetchPP target pp_filename fs = Exits 1 (pp_filename ++ " open error")%string
      <-> content fs pp_filename = None)
  /\ (forall bytes, content fs pp_filename = Some bytes ->
        exists pp', FetchPP target pp_filename fs = Returns pp')
  /\ (can_write fs pp_filename = true ->
      exists fs', SavePP pp pp_filename fs = Returns fs').
Proof.
  unfold SavePP, FetchPP. split; [|split; [|split]].
  - destruct (can_write fs pp_filename); cbn [negb]; split; intros H;
      try reflexivity; discriminate.
  - destruct (content fs pp_filename) as [bytes|]; split; intros H;
      try reflexivity; try discriminate.
    destruct (operator_rshift (Some bytes) target). discriminate.
  - intros bytes ->. destruct (operator_rshift (Some bytes) target) as [fin pp'].
    now exists pp'.
  - intros ->. cbn [negb]. eauto.
Qed.

(** Saving replaces the file: after two saves under one name [FetchPP]
    returns the parameters saved last, and no other file changes. *)
Theorem SavePP_overwrites (pp1 pp2 target : @PP basePP) (pp_filename : string)
        (fs : filesystem) :
  can_write fs pp_filename = true ->
  exists fs1 fs2,
    SavePP pp1 pp_filename fs = Returns fs1
    /\ SavePP pp2 pp_filename fs1 = Returns fs2
    /\ FetchPP target pp_filename fs2 = Returns pp2
    /\ forall other, other <> pp_filename ->
         content fs2 other = content fs other
         /\ FetchPP target other fs2 = FetchPP target other fs.
Proof.
  intros Hw.
  exists (write_file fs pp_filename (operator_lshift [] pp1)),
         (write_file (write_file fs pp_filename (operator_lshift [] pp1))
                     pp_filename (operator_lshift [] pp2)).
  assert (Hw1 : can_write (write_file fs pp_filename (operator_lshift [] pp1))
                          pp_filename = true) by exact Hw.
  pose proof (operator_rshift_lshift pp2 target) as Hrw.
  split; [unfold SavePP; now rewrite Hw|].
  split; [unfold SavePP; now rewrite Hw1|].
  split.
  - unfold FetchPP. rewrite content_write_file.
    specialize (Hrw []). rewrite app_nil_r in Hrw. now rewrite Hrw.
  - intros other Hne.
    assert (E : content (write_file (write_file fs pp_filename (operator_lshift [] pp1))
                           pp_filename (operator_lshift [] pp2)) other
                = content fs other).
    { unfold write_file. cbn [content].
      destruct (String.eqb_spec other pp_filename); [contradiction|reflexivity]. }
    split; [exact E|]. unfold FetchPP. now rewrite E.
Qed.

(** The stream operators compose: [operator<<] only appends, and two
    parameter values written one after the other are read back in that
    order, the second read starting where the first one stopped. *)
Theorem operators_compose (pp1 pp2 target : @PP basePP) (fout : ofstream) :
  operator_lshift fout pp1 = fout ++ operator_lshift [] pp1
  /\ let stream := operator_lshift (operator_lshift [] pp1) pp2 in
     let '(fin1, got1) := operator_rshift (Some stream) target in
     let '(fin2, got2) := operator_rshift fin1 target in
     got1 = pp1 /\ got2 = pp2 /\ fin2 = Some [].
Proof.
  assert (Happ : forall f p, operator_lshift f p = f ++ operator_lshift [] p).
  { intros f p. unfold operator_lshift, Serialization.write_uint8.
    cbn [app]. now rewrite app_assoc. }
  split; [apply Happ|]. cbv zeta.
  pose proof (operator_rshift_lshift pp1 target) as H1.
  pose proof (operator_rshift_lshift pp2 target []) as H2.
  rewrite (Happ (operator_lshift [] pp1) pp2), H1.
  rewrite app_nil_r in H2. rewrite H2. auto.
Qed.

End Extras.

(** ** The matrices before the transpose *)

Lemma byte_ext (a b : uint8_t) :
  (forall k, k < 8 -> byte_bit a k = byte_bit b k) -> a = b.
Proof.
  intros H. rewrite <- (of_bits_to_bits a), <- (of_bits_to_bits b).
  unfold byte_bit, byte_bits in H.
  destruct (to_bits a) as (a0 & a1 & a2 & a3 & a4 & a5 & a6 & a7).
  destruct (to_bits b) as (b0 & b1 & b2 & b3 & b4 & b5 & b6 & b7).
  pose proof (H 0 ltac:(lia)) as H0. pose proof (H 1 ltac:(lia)) as H1.
  pose proof (H 2 ltac:(lia)) as H2. pose proof (H 3 ltac:(lia)) as H3.
  pose proof (H 4 ltac:(lia)) as H4. pose proof (H 5 ltac:(lia)) as H5.
  pose proof (H 6 ltac:(lia)) as H6. pose proof (H 7 ltac:(lia)) as H7.
  cbn [nth] in H0, H1, H2, H3, H4, H5, H6, H7. now subst.
Qed.

Section ColumnView.

Context {basePP : Type} {prg : PRG.Oracle}.

(** After the column phase [Q] has the size of [T], and column by column
    it is a share of [T]: element [(i, j)] of [Q] is element [(i, j)] of
    [T] xor [s_j and r_i]; in particular the bytes of column [j] of [Q]
    are those of column [j] of [T] when the sender's bit [s_j] is 0. *)
Theorem column_correlation (pp : @PP basePP) (r : list uint8_t) (N : nat) :
  N mod 128 = 0 ->
  exists s Q T wire,
    run (Send_Phase1 pp N (fun s Q => Ret (s, Q)))
        (Receive_Phase1 pp r N (fun T => Ret T)) []
    = Finished (s, Q) T wire
    /\ length Q = N / 8 * BASE_LEN
    /\ length T = N / 8 * BASE_LEN
    /\ forall j, j < BASE_LEN ->
         (forall i, i < N ->
            matrix_bit Q N i j
            = xorb (matrix_bit T N i j)
                   (sparse_bit (nth j s x00) && sparse_bit (nth i r x00)))
         /\ (nth j s x00 = x00 ->
             firstn (N / 8) (skipn (j * N / 8) Q)
             = firstn (N / 8) (skipn (j * N / 8) T)).
Proof.
  intros HN.
  exists sender_bits, (matrix_Q r N), (matrix_T N), ([] ++ phase1_wire r N).
  split; [now rewrite phase1_run|].
  destruct (multiple_of_128 N HN) as [n ->]. unfold BASE_LEN.
  assert (HlQ : length (matrix_Q r (128 * n)) = 128 * n / 8 * 128)
    by (rewrite length_matrix_Q; lia).
  assert (HlT : length (matrix_T (128 * n)) = 128 * n / 8 * 128)
    by apply length_matrix_T.
  split; [exact HlQ|]. split; [exact HlT|].
  intros j Hj. split; [intros i Hi; now apply matrix_Q_bit|].
  intros Hs.
  replace (j * (128 * n) / 8) with (j * (16 * n)) by lia.
  replace (128 * n / 8) with (16 * n) in * by lia.
  apply (nth_ext _ _ x00 x00).
  - rewrite !length_firstn, !length_skipn, HlQ, HlT. reflexivity.
  - intros q Hq. rewrite length_firstn, length_skipn, HlQ in Hq.
    assert (Hq' : q < 16 * n) by lia.
    rewrite !nth_firstn, !nth_skipn.
    destruct (Nat.ltb_spec q (16 * n)); [|lia].
    apply byte_ext. intros k Hk.
    pose proof (@matrix_Q_bit _ r n (8 * q + k) j ltac:(lia) Hj) as Hbit.
    unfold matrix_bit in Hbit.
    replace (128 * n / 8) with (16 * n) in Hbit by lia.
    replace ((8 * q + k) / 8) with q in Hbit by lia.
    replace ((8 * q + k) mod 8) with k in Hbit by lia.
    rewrite Hbit, Hs. change (sparse_bit x00) with false.
    cbn [andb]. now rewrite xorb_false_r.
Qed.

End ColumnView.

(** * The further properties on the concrete instance *)

Lemma traffic_as_reported_witness :
  exists vec_result wire,
    run (@Send _ Example.prg Example.hash Example.pp Example.vec_m0 Example.vec_m1 128)
        (@Receive _ Example.prg Example.hash Example.pp Example.vec_selection_bit 128) []
    = Finished tt vec_result wire
    /\ 16 * traffic Receiver wire = BASE_LEN * 128 / 128 * 16 * 2
    /\ 16 * traffic Sender wire = 128 * 16 * 2
    /\ length wire = 1 + 2 * BASE_LEN + 2.
Proof.
  exact (proj1 (@traffic_as_reported _ Example.prg Example.hash Example.pp
                  Example.vec_m0 Example.vec_m1 Example.vec_m1
                  Example.vec_selection_bit 128 eq_refl)).
Defined.

Lemma onesided_is_selected_half_witness :
  exists onesided_result standard_result outer0 outer1,
    run (@OnesidedSend _ Example.prg Example.hash Example.pp Example.vec_m1 128)
        (@OnesidedReceive _ Example.prg Example.hash Example.pp
           Example.vec_selection_bit 128) []
    = Finished tt onesided_result
        (@phase1_wire Example.prg Example.vec_selection_bit 128
         ++ map (fun i => OneBlock Sender (nth i outer1 0%N)) (seq 0 128))
    /\ run (@Send _ Example.prg Example.hash Example.pp Example.vec_m0
              Example.vec_m1 128)
           (@Receive _ Example.prg Example.hash Example.pp
              Example.vec_selection_bit 128) []
       = Finished tt standard_result
           (@phase1_wire Example.prg Example.vec_selection_bit 128
            ++ [Blocks Sender outer0; Blocks Sender outer1])
    /\ onesided_result
       = map (fun i => nth i standard_result 0%N)
             (ones Example.vec_selection_bit 128).
Proof.
  exact (@onesided_is_selected_half _ Example.prg Example.hash Example.pp
           Example.vec_m0 Example.vec_m1 Example.vec_selection_bit 128 eq_refl).
Defined.

Lemma base_OT_roles_witness :
  exists bits k k',
    @Send _ Example.prg Example.hash Example.pp Example.vec_m0 Example.vec_m1 128
    = NPOT_Receive (baseOT Example.pp) bits BASE_LEN k
    /\ @OnesidedSend _ Example.prg Example.hash Example.pp Example.vec_m1 128
       = NPOT_Receive (baseOT Example.pp) bits BASE_LEN k'
    /\ length bits = BASE_LEN /\ Forall is_sparse_bit bits.
Proof.
  exact (proj1 (@base_OT_roles _ Example.prg Example.hash Example.pp
                  Example.vec_m0 Example.vec_m1 Example.vec_m1
                  Example.vec_selection_bit 128 eq_refl)).
Defined.

Lemma SavePP_overwrites_witness :
  exists fs1 fs2,
    @SavePP _ Example.npot_io {| malicious := x01; baseOT := x07 |}
      "iknpote.pp"%string Example.fs = Returns fs1
    /\ @SavePP _ Example.npot_io Example.pp "iknpote.pp"%string fs1 = Returns fs2
    /\ @FetchPP _ Example.npot_io {| malicious := xff; baseOT := x00 |}
         "iknpote.pp"%string fs2 = Returns Example.pp.
Proof.
  destruct (@SavePP_overwrites _ Example.npot_io
              {| malicious := x01; baseOT := x07 |} Example.pp
              {| malicious := xff; baseOT := x00 |} "iknpote.pp"%string Example.fs
              eq_refl) as (fs1 & fs2 & H1 & H2 & H3 & _).
  exists fs1, fs2. split; [exact H1|split; [exact H2|exact H3]].
Defined.

Lemma column_correlation_witness :
  exists s Q T wire,
    run (@Send_Phase1 _ Example.prg _ Example.pp 128 (fun s Q => Ret (s, Q)))
        (@Receive_Phase1 _ Example.prg _ Example.pp Example.vec_selection_bit 128
           (fun T => Ret T)) []
    = Finished (s, Q) T wire
    /\ length Q = 128 / 8 * BASE_LEN
    /\ length T = 128 / 8 * BASE_LEN.
Proof.
  destruct (@column_correlation _ Example.prg Example.pp
              Example.vec_selection_bit 128 eq_refl)
    as (s & Q & T & wire & Hrun & HQ & HT & _).
  exists s, Q, T, wire. split; [exact Hrun|split; [exact HQ|exact HT]].
Defined.

Section SetupSaveFetch.

Context {basePP : Type} {npot_io : NPOT.Serializer basePP}.

(** Setup, save, fetch: the parameters fetched from a file written by
    [SavePP (Setup ...)] are the ones [Setup] made, with [malicious = 0],
    whatever the target of [FetchPP] held and whatever other files the
    system has. *)
Theorem Setup_SavePP_FetchPP (NPOT_Setup : basePP) (target : @PP basePP)
        (pp_filename : string) (fs : filesystem) :
  can_write fs pp_filename = true ->
  exists fs' pp,
    SavePP (Setup NPOT_Setup) pp_filename fs = Returns fs'
    /\ FetchPP target pp_filename fs' = Returns pp
    /\ pp = Setup NPOT_Setup
    /\ malicious pp = x00
    /\ baseOT pp = NPOT_Setup
    /\ content fs' pp_filename = Some (NPOT.write NPOT_Setup ++ [x00]).
Proof.
  intros Hw.
  exists (write_file fs pp_filename (operator_lshift [] (Setup NPOT_Setup))),
         (Setup NPOT_Setup).
  split; [unfold SavePP; now rewrite Hw|].
  split.
  - unfold FetchPP. rewrite content_write_file.
    pose proof (operator_rshift_lshift (Setup NPOT_Setup) target []) as H.
    rewrite app_nil_r in H. now rewrite H.
  - repeat (split; [reflexivity|]). now rewrite content_write_file.
Qed.

End SetupSaveFetch.

Lemma Setup_SavePP_FetchPP_witness :
  exists fs' pp,
    @SavePP _ Example.npot_io (Setup x2a) "iknpote.pp"%string Example.fs = Returns fs'
    /\ @FetchPP _ Example.npot_io {| malicious := xff; baseOT := x00 |}
         "iknpote.pp"%string fs' = Returns pp
    /\ pp = Setup x2a.
Proof.
  destruct (@Setup_SavePP_FetchPP _ Example.npot_io x2a
              {| malicious := xff; baseOT := x00 |} "iknpote.pp"%string Example.fs
              eq_refl) as (fs' & pp & H1 & H2 & H3 & _).
  exists fs', pp. split; [exact H1|split; [exact H2|exact H3]].
Defined.
